(** * tak_bot: the Signal-to-CoT message bridge

    A shallow embedding of [src/tak_bot/__main__.py] and the properties its
    specification states about it.

    - Python [str] values are lists of Unicode code points, [bytes] values are
      lists of bytes, [float] is the kernel's binary64.
    - Synchronous code is a state-and-exception monad [M] over a [world]
      (log records, the output queue, the uuid draws made so far, the
      externally visible actions and the state of the daemon subprocess).
    - Coroutines that really suspend ([open_connection], [readline],
      [wait_closed], [sleep], the subprocess calls) are [task]s: they also
      consume a script of environment responses, one per [await] and one
      for the call of [terminate()], whose outcome the subprocess decides,
      and are suspended for good when the script is exhausted.
    - What the module imports from the Python runtime and from third-party
      packages ([float()], [str.lower] beyond ASCII, [bytes.decode],
      [json.loads], [uuid.uuid4], [pytak.gen_cot]) is the interface
      [Runtime]; every theorem holds for every implementation of it. *)

From Stdlib Require Import ZArith NArith List String Ascii Floats Bool Lia.
From Stdlib Require Import Strings.Byte.
From stdpp Require Import gmap list.

Set Warnings "-register-all".
Set Default Proof Using "Type".

(** ** Text *)

Abbreviation char := N (only parsing).
Abbreviation str := (list N) (only parsing).
Abbreviation bytes := (list byte) (only parsing).

(** A literal: the code points of an ASCII string. *)
Definition py (s : string) : str := N_of_ascii <$> list_ascii_of_string s.
Arguments py : simpl never.

(** [str.isspace] for one code point: the characters [str.strip] and
    [str.split] treat as whitespace (CPython's [_PyUnicode_IsWhitespace]). *)
Definition isspace (c : char) : bool :=
  ((0x09 <=? c) && (c <=? 0x0D) || (0x1C <=? c) && (c <=? 0x20)
   || (c =? 0x85) || (c =? 0xA0) || (c =? 0x1680)
   || (0x2000 <=? c) && (c <=? 0x200A)
   || (c =? 0x2028) || (c =? 0x2029) || (c =? 0x202F) || (c =? 0x205F)
   || (c =? 0x3000))%N.

Fixpoint str_lstrip (s : str) : str :=
  match s with
  | c :: s' => if isspace c then str_lstrip s' else s
  | [] => []
  end.

Definition str_rstrip (s : str) : str := reverse (str_lstrip (reverse s)).

(** [text.strip()] *)
Definition str_strip (s : str) : str := str_rstrip (str_lstrip s).

(** The maximal whitespace-free prefix of [s], and what follows it. *)
Fixpoint token (s : str) : str * str :=
  match s with
  | c :: s' => if isspace c then ([], s) else let (t, r) := token s' in (c :: t, r)
  | [] => ([], [])
  end.

(** [text.split(maxsplit=n)] with the default separator: runs of whitespace
    separate the tokens, at most [n] splits are made, and what is left after
    the last split goes, with its leading whitespace removed, into the last
    token. *)
Fixpoint str_split (maxsplit : nat) (s : str) : list str :=
  match str_lstrip s with
  | [] => []
  | (_ :: _) as s1 =>
      match maxsplit with
      | 0 => [s1]
      | S n => let (tok, rest) := token s1 in tok :: str_split n rest
      end
  end.

Definition is_ascii (c : char) : bool := (c <? 128)%N.

Definition ascii_lower (c : char) : char :=
  if ((0x41 <=? c) && (c <=? 0x5A))%N then (c + 32)%N else c.

Definition all_space (s : str) : Prop := Forall (fun c => isspace c = true) s.
Definition no_space (s : str) : Prop := Forall (fun c => isspace c = false) s.

(** ** Exceptions *)

(** The [ValueError]s this module raises itself. *)
Inductive value_error : Type :=
| Expected_lat_lon_label (text : str)
| Invalid_coordinates
| Invalid_latitude (lat : float)
| Invalid_longitude (lon : float)
| Label_cannot_be_empty.

Inductive exn : Type :=
| ValueError (why : value_error)
| JSONDecodeError
| UnicodeDecodeError
| TypeError
| AttributeError
| KeyError
| ConnectionRefusedError
| ConnectionResetError
| OSError
| RecursionError
| ProcessLookupError
| CancelledError
| KeyboardInterrupt.

(** [isinstance(e, ValueError)]: the two decode errors are subclasses. *)
Definition is_ValueError (e : exn) : bool :=
  match e with
  | ValueError _ | JSONDecodeError | UnicodeDecodeError => true
  | _ => false
  end.

(** [isinstance(e, Exception)]: everything but the [BaseException]s that
    signal cancellation and interruption. *)
Definition is_Exception (e : exn) : bool :=
  match e with
  | CancelledError | KeyboardInterrupt => false
  | _ => true
  end.

(** ** JSON values, as [json.loads] builds them

    An object is a [dict]: a finite map from its keys. The order of the
    keys, which shows in one debug record only, is not kept. *)

Inductive json : Type :=
| JNull
| JBool (b : bool)
| JInt (z : Z)
| JFloat (f : float)
| JStr (s : str)
| JList (l : list json)
| JDict (d : gmap str json).

(** [bool(v)] *)
Definition truthy (v : json) : bool :=
  match v with
  | JNull => false
  | JBool b => b
  | JInt z => negb (z =? 0)%Z
  | JFloat f => negb (PrimFloat.eqb f 0%float)
  | JStr s => match s with [] => false | _ => true end
  | JList l => match l with [] => false | _ => true end
  | JDict d => negb (bool_decide (d = ∅))
  end.

(** [v == s] for a string [s]. *)
Definition eq_str (v : json) (s : str) : bool :=
  match v with JStr s' => bool_decide (s' = s) | _ => false end.

(** [sub in s] for two strings. *)
Fixpoint is_prefix (p s : str) : bool :=
  match p, s with
  | [], _ => true
  | a :: p', b :: s' => (a =? b)%N && is_prefix p' s'
  | _ :: _, [] => false
  end.

Fixpoint is_substring (p s : str) : bool :=
  is_prefix p s || match s with [] => false | _ :: s' => is_substring p s' end.

(** ** The world synchronous code runs in *)

Inductive level : Type := DEBUG | INFO | WARNING | ERROR.

(** One constructor per [logger] call of the module, with the values its
    message is formatted from. *)
Inductive log_msg : Type :=
| Connecting (host : str) (port : Z)
| Connected (host : str) (port : Z)
| Connection_closed_by_server
| Raw (line : str)
| Non_JSON (line : str)
| Connection_refused
| Connection_error (e : exn)
| Message_from (account source text : json)
| Non_text_message (source envelope : json)
| Other_notification (message : json)
| Failed_to_generate (raw : json)
| Could_not_be_parsed (raw : json)
| Started_process (cmd : str).

(** What the program does to the outside, in the order it does it. *)
Inductive action : Type :=
| Open_connection (host : str) (port : Z)
| Readline
| Writer_close
| Wait_closed
| Sleep (seconds : Z)
| Create_subprocess_shell (cmd : str)
| Terminate
| Wait.

(** What the program has done to the daemon subprocess: nothing yet,
    started it, signalled it by a [terminate()] that returned, and awaited
    its exit by a [wait()] that returned. *)
Inductive proc_state : Type := Not_started | Running | Terminating | Exited.

Record world : Type := World {
  log : list (level * log_msg);
  queue : list bytes;
  uuid_draws : nat;
  trace : list action;
  daemon : proc_state
}.

Inductive result (A : Type) : Type :=
| Ok (a : A)
| Raise (e : exn).
Arguments Ok {A} a.
Arguments Raise {A} e.

(** Synchronous code: it returns or raises, and changes the world. *)
Definition M (A : Type) : Type := world → result A * world.

#[global] Instance M_ret : MRet M := λ A a w, (Ok a, w).
#[global] Instance M_bind : MBind M := λ A B k m w,
  match m w with
  | (Ok a, w') => k a w'
  | (Raise e, w') => (Raise e, w')
  end.

Definition raise {A} (e : exn) : M A := λ w, (Raise e, w).

(** [try: body  except <the classes handler accepts>: ...]; an exception no
    clause accepts goes on. *)
Definition try_except {A} (body : M A) (handler : exn → option (M A)) : M A := λ w,
  match body w with
  | (Ok a, w') => (Ok a, w')
  | (Raise e, w') =>
      match handler e with
      | Some h => h w'
      | None => (Raise e, w')
      end
  end.

Definition logger (l : level) (m : log_msg) : M unit := λ w,
  (Ok tt, World (log w ++ [(l, m)]) (queue w) (uuid_draws w) (trace w) (daemon w)).

(** [await queue.put(item)] on the unbounded output queue: it never
    suspends. *)
Definition queue_put (item : bytes) : M unit := λ w,
  (Ok tt, World (log w) (queue w ++ [item]) (uuid_draws w) (trace w) (daemon w)).

(** One more draw from [uuid.uuid4]: its number. *)
Definition draw_uuid : M nat := λ w,
  (Ok (uuid_draws w), World (log w) (queue w) (S (uuid_draws w)) (trace w) (daemon w)).

Definition act (a : action) : M unit := λ w,
  (Ok tt, World (log w) (queue w) (uuid_draws w) (trace w ++ [a]) (daemon w)).

Definition set_daemon (p : proc_state) : M unit := λ w,
  (Ok tt, World (log w) (queue w) (uuid_draws w) (trace w) p).

(** ** What the Python runtime and the third-party packages provide *)

(** The outcomes of [json.loads(s)] on a [str]: the value read; a
    [json.JSONDecodeError] on a text that is no JSON document; a
    [RecursionError] on a document nested deeper than the interpreter lets
    the scanner recurse. *)
Inductive loaded : Type :=
| Loaded (v : json)
| Not_JSON
| Too_deep.

Class Runtime : Type := {
  (** [float(s)]; [None] when it raises [ValueError]. *)
  float_of_str : str → option float;
  (** [s.lower()] for a string with a character outside ASCII. *)
  unicode_lower : str → str;
  (** [b.decode("utf-8")]; [None] when it raises [UnicodeDecodeError]. *)
  utf8_decode : bytes → option str;
  (** [json.loads(s)]. *)
  json_loads : str → loaded;
  (** [str(uuid.uuid4())] of the process's n-th draw. *)
  uuid4 : nat → str;
  (** [pytak.gen_cot(lat=, lon=, uid=, ce=, le=, hae=, cot_type=, stale=)],
      typed [bytes | None]; the timestamps it stamps are not modelled. *)
  pytak_gen_cot : float → float → str → Z → Z → Z → str → Z → option bytes
}.

(** [s.lower()]: on ASCII text only A-Z change. *)
Definition str_lower `{Runtime} (s : str) : str :=
  if forallb is_ascii s then ascii_lower <$> s else unicode_lower s.

(** ** The marker event model *)

Inductive Affiliation : Type := HOSTILE | FRIENDLY | NEUTRAL | UNKNOWN.

Definition Affiliation_value (a : Affiliation) : str :=
  match a with
  | HOSTILE => py "h"
  | FRIENDLY => py "f"
  | NEUTRAL => py "n"
  | UNKNOWN => py "u"
  end.

Definition COT_TYPE_MAP : gmap str str :=
  list_to_map
    [ (py "tank", py "G-U-C-F-M");
      (py "apc", py "G-U-C-F-A");
      (py "infantry", py "G-U-C-I");
      (py "artillery", py "G-U-C-F-D");
      (py "mlrs", py "G-U-C-F-D-M");
      (py "sam", py "G-U-W-M-S");
      (py "radar", py "G-U-S-R");
      (py "truck", py "G-U-S-T");
      (py "helicopter", py "A-M-H");
      (py "drone", py "A-M-F-Q") ].

Record CoordinateMessage : Type := {
  lat : float;
  lon : float;
  description : str;
  affiliation : Affiliation;
  event_id : str
}.

(** [-90 <= self.lat <= 90] and [-180 <= self.lon <= 180]: comparisons of a
    float with exactly representable integers; both are [False] on NaN. *)
Definition lat_in_range (x : float) : bool :=
  PrimFloat.leb (-90)%float x && PrimFloat.leb x 90%float.
Definition lon_in_range (x : float) : bool :=
  PrimFloat.leb (-180)%float x && PrimFloat.leb x 180%float.

Definition __post_init__ (self : CoordinateMessage) : M unit :=
  if negb (lat_in_range (lat self)) then raise (ValueError (Invalid_latitude (lat self)))
  else if negb (lon_in_range (lon self)) then raise (ValueError (Invalid_longitude (lon self)))
  else match description self with
       | [] => raise (ValueError Label_cannot_be_empty)
       | _ :: _ => mret tt
       end.

(** [cls(lat=lat, lon=lon, description=d)]: the generated [__init__] fills
    the defaults in (a fresh event id from [default_factory]) and then runs
    [__post_init__]. *)
Definition new_CoordinateMessage `{Runtime} (lat lon : float) (d : str) : M CoordinateMessage :=
  n ← draw_uuid;
  let self := {| lat := lat; lon := lon; description := d;
                 affiliation := UNKNOWN; event_id := py "Signal-Bot-" ++ uuid4 n |} in
  __post_init__ self;;
  mret self.

Definition float_ `{Runtime} (s : str) : M float :=
  match float_of_str s with
  | Some x => mret x
  | None => raise (ValueError Invalid_coordinates)
  end.

Definition from_string `{Runtime} (text : str) : M CoordinateMessage :=
  match str_split 2 (str_strip text) with
  | [p0; p1; p2] =>
      '(lat, lon) ← try_except
                      (lat ← float_ p0; lon ← float_ p1; mret (lat, lon))
                      (λ e, if is_ValueError e
                            then Some (raise (ValueError Invalid_coordinates))
                            else None);
      new_CoordinateMessage lat lon p2
  | _ => raise (ValueError (Expected_lat_lon_label text))
  end.

Definition cot_type `{Runtime} (self : CoordinateMessage) : str :=
  let base := match COT_TYPE_MAP !! str_lower (description self) with
              | Some ((_ :: _) as base) => base
              | _ => py "G-U"
              end in
  py "a-" ++ Affiliation_value (affiliation self) ++ py "-" ++ base.

Definition gen_cot `{Runtime} (self : CoordinateMessage) (hae stale ce le : Z) : option bytes :=
  pytak_gen_cot (lat self) (lon self) (event_id self) ce le hae (cot_type self) stale.

(** ** The conversion handler *)

(** The handler is called with whatever the JSON document held under
    [message]; [from_string] calls [.strip()] on it, which anything but a
    string does not have. *)
Definition as_text (v : json) : M (list N) :=
  match v with
  | JStr s => mret s
  | _ => raise AttributeError
  end.

Definition _cot_message_handler `{Runtime} (cot_message_raw : json) : M unit :=
  try_except
    (text ← as_text cot_message_raw;
     m ← from_string text;
     match gen_cot m 0 120 50 9999999 with
     | Some ((_ :: _) as cot_bytes) => queue_put cot_bytes
     | _ => logger WARNING (Failed_to_generate cot_message_raw)
     end)
    (λ e, if is_ValueError e
          then Some (logger WARNING (Could_not_be_parsed cot_message_raw))
          else None).

(** ** The envelope router *)

(** [v.get(key, default)]: only a dict has [get]. *)
Definition dict_get (v : json) (key : str) (default : json) : M json :=
  match v with
  | JDict d => mret (match d !! key with Some x => x | None => default end)
  | _ => raise AttributeError
  end.

(** [key in v]: a key of a dict, an element of a list, a substring of a
    string; nothing else is a container. *)
Definition py_in (key : str) (v : json) : M bool :=
  match v with
  | JDict d => mret (bool_decide (is_Some (d !! key)))
  | JList l => mret (existsb (λ x, eq_str x key) l)
  | JStr s => mret (is_substring key s)
  | _ => raise TypeError
  end.

(** [v[:n]]: strings and lists can be sliced; [None], numbers and booleans
    are not subscriptable, and a dict looks the slice up as a key. *)
Definition slice_to (n : nat) (v : json) : M json :=
  match v with
  | JStr s => mret (JStr (take n s))
  | JList l => mret (JList (take n l))
  | JDict _ => raise KeyError
  | _ => raise TypeError
  end.

Definition handle_socket_message
    (message : json) (message_hanlder : option (json → M unit)) (filter_param : str) : M unit :=
  method ← dict_get message (py "method") JNull;
  if eq_str method (py "receive") then
    params ← dict_get message (py "params") (JDict ∅);
    envelope ← dict_get params (py "envelope") (JDict ∅);
    present ← py_in filter_param envelope;
    if negb present then mret tt
    else
      account ← dict_get params (py "account") JNull;
      source_number ← dict_get envelope (py "sourceNumber") JNull;
      source ← (if truthy source_number then mret source_number
                else dict_get envelope (py "source") JNull);
      data_message ← dict_get envelope (py "dataMessage") (JDict ∅);
      text ← dict_get data_message (py "message") JNull;
      if truthy text then
        account7 ← slice_to 7 account;
        source10 ← slice_to 10 source;
        logger INFO (Message_from account7 source10 text);;
        match message_hanlder with
        | Some handler => handler text
        | None => mret tt
        end
      else logger DEBUG (Non_text_message source envelope)
  else logger DEBUG (Other_notification message).

(** ** Coroutines that suspend *)

(** What the environment answers to one call that leaves the program (an
    [await] of the event loop, or [terminate()] on the subprocess): the
    operation completes (with the bytes read, for [readline]) or raises. *)
Inductive resp : Type :=
| Done (data : bytes)
| Fail (e : exn).

(** A task consumes responses; [None] is a task still suspended when the
    script ends. Nothing runs in a suspended task, no [finally] either. *)
Definition task (A : Type) : Type :=
  list resp → world → option (result A) * list resp * world.

#[global] Instance task_ret : MRet task := λ A a script w, (Some (Ok a), script, w).
#[global] Instance task_bind : MBind task := λ A B k m script w,
  match m script w with
  | (Some (Ok a), script', w') => k a script' w'
  | (Some (Raise e), script', w') => (Some (Raise e), script', w')
  | (None, script', w') => (None, script', w')
  end.

(** Synchronous code called from a coroutine. *)
Definition lift {A} (m : M A) : task A := λ script w,
  let (r, w') := m w in (Some r, script, w').

(** [await] of an operation of the event loop: the call is made, and the
    task resumes with the environment's next response. *)
Definition await (a : action) : task bytes := λ script w,
  let (_, w') := act a w in
  match script with
  | [] => (None, [], w')
  | Done data :: rest => (Some (Ok data), rest, w')
  | Fail e :: rest => (Some (Raise e), rest, w')
  end.

Definition task_try_except {A} (body : task A) (handler : exn → option (task A)) : task A :=
  λ script w,
  match body script w with
  | (Some (Raise e), script', w') =>
      match handler e with
      | Some h => h script' w'
      | None => (Some (Raise e), script', w')
      end
  | other => other
  end.

(** [try: body  finally: final]: [final] runs when [body] returns or raises,
    and an exception of [final] replaces the outcome of [body]. *)
Definition task_try_finally {A} (body : task A) (final : task unit) : task A :=
  λ script w,
  match body script w with
  | (Some r, script', w') =>
      match final script' w' with
      | (Some (Ok _), script'', w'') => (Some r, script'', w'')
      | (Some (Raise e), script'', w'') => (Some (Raise e), script'', w'')
      | (None, script'', w'') => (None, script'', w'')
      end
  | (None, script', w') => (None, script', w')
  end.

Inductive ctl : Type := Continue | Break.

Fixpoint while_fuel (fuel : nat) (body : task ctl) : task unit := λ script w,
  match fuel with
  | 0 => (None, script, w)
  | S fuel' =>
      match body script w with
      | (Some (Ok Continue), script', w') => while_fuel fuel' body script' w'
      | (Some (Ok Break), script', w') => (Some (Ok tt), script', w')
      | (Some (Raise e), script', w') => (Some (Raise e), script', w')
      | (None, script', w') => (None, script', w')
      end
  end.

(** [while True: body], for a body that awaits in every iteration: an
    iteration consumes a response, so the loop cannot make more iterations
    than the script has responses, plus the one that finds it empty. *)
Definition while_true (body : task ctl) : task unit := λ script w,
  while_fuel (S (length script)) body script w.

(** ** The reconnecting line client *)

Definition loads `{Runtime} (s : str) : M json :=
  match json_loads s with
  | Loaded v => mret v
  | Not_JSON => raise JSONDecodeError
  | Too_deep => raise RecursionError
  end.

Definition decode `{Runtime} (b : bytes) : M (list N) :=
  match utf8_decode b with
  | Some s => mret s
  | None => raise UnicodeDecodeError
  end.

(** One iteration of the inner loop (lines 153-170). *)
Definition read_line `{Runtime} (message_handler : option (json → M unit)) : task ctl :=
  line ← await Readline;
  match line with
  | [] => lift (logger WARNING Connection_closed_by_server);; mret Break
  | _ :: _ =>
      decoded ← lift (decode line);
      let line_str := str_strip decoded in
      match line_str with
      | [] => mret Continue
      | _ :: _ =>
          lift (logger DEBUG (Raw line_str));;
          lift (try_except
                  (message ← loads line_str;
                   handle_socket_message message message_handler (py "dataMessage"))
                  (λ e, match e with
                        | JSONDecodeError => Some (logger DEBUG (Non_JSON line_str))
                        | _ => None
                        end));;
          mret Continue
      end
  end.

(** The inner [try]/[finally] (lines 151-174). *)
Definition serve_connection `{Runtime} (message_handler : option (json → M unit)) : task unit :=
  task_try_finally
    (while_true (read_line message_handler))
    (lift (act Writer_close);; await Wait_closed;; mret tt).

Definition retry_later (m : log_msg) : task unit :=
  lift (logger ERROR m);; await (Sleep 5);; mret tt.

(** One iteration of the outer loop (lines 148-181). *)
Definition connect_once `{Runtime}
    (host : str) (port : Z) (message_handler : option (json → M unit)) : task ctl :=
  task_try_except
    (await (Open_connection host port);;
     lift (logger INFO (Connected host port));;
     serve_connection message_handler)
    (λ e, match e with
          | ConnectionRefusedError => Some (retry_later Connection_refused)
          | _ => if is_Exception e then Some (retry_later (Connection_error e)) else None
          end);;
  mret Continue.

Definition receive_from_tcp_socket `{Runtime}
    (host : str) (port : Z) (message_handler : option (json → M unit)) : task unit :=
  lift (logger INFO (Connecting host port));;
  while_true (connect_once host port message_handler).

(** ** The process supervisor *)

Definition run (cmd : str) : task unit :=
  await (Create_subprocess_shell cmd);;
  lift (set_daemon Running);;
  lift (logger INFO (Started_process cmd)).

(** [process.terminate()]: a synchronous call on the subprocess, answered
    by the environment as an await is: the signal is sent, or the call
    raises ([ProcessLookupError] once the process has exited). A script
    that ends here cuts the run off at the call. *)
Definition process_terminate : task unit :=
  await Terminate;; lift (set_daemon Terminating).

(** [await process.wait()] returns once the process has exited. *)
Definition process_wait : task unit :=
  await Wait;; lift (set_daemon Exited).

(** [async with cleaning_up_proc(cmd): body] *)
Definition cleaning_up_proc {A} (cmd : str) (body : task A) : task A :=
  run cmd;;
  task_try_finally body (process_terminate;; process_wait).

Definition run_incomming_message_processing `{Runtime}
    (cmd : str) (host : str) (port : Z) : task unit :=
  let cot_message_handler := _cot_message_handler in
  cleaning_up_proc cmd (receive_from_tcp_socket host port (Some cot_message_handler)).

(** ** Vocabulary of the statements *)

(** A text whose first character, and one whose last character, is not
    whitespace. *)
Definition starts_nonspace (s : str) : Prop :=
  match s with
  | c :: _ => isspace c = false
  | [] => False
  end.

Definition ends_nonspace (s : str) : Prop := starts_nonspace (reverse s).

(** The world after one uuid draw. *)
Definition drawn (w : world) : world :=
  World (log w) (queue w) (S (uuid_draws w)) (trace w) (daemon w).

(** The world with one more log record, with more actions made, and with
    the daemon in another state. *)
Definition logged (l : level) (m : log_msg) (w : world) : world :=
  World (log w ++ [(l, m)]) (queue w) (uuid_draws w) (trace w) (daemon w).

Definition acted (a : list action) (w : world) : world :=
  World (log w) (queue w) (uuid_draws w) (trace w ++ a) (daemon w).

Definition daemon_set (p : proc_state) (w : world) : world :=
  World (log w) (queue w) (uuid_draws w) (trace w) p.

(** The category code as the specification words it: the table entry of the
    lowercased label, and the generic ground-unit code without one. *)
Definition category_code `{Runtime} (label : str) : str :=
  default (py "G-U") (COT_TYPE_MAP !! str_lower label).

(** Two texts with the same letters, up to the case of A-Z. *)
Definition same_up_to_case (d1 d2 : str) : Prop :=
  Forall2 (λ x y, ascii_lower x = ascii_lower y) d1 d2.

(** The first envelope of the specification's examples: a text message
    without [account] and without a source. *)
Definition bare_text_envelope : json :=
  JDict {[ py "method" := JStr (py "receive");
           py "params" := JDict {[ py "envelope" :=
             JDict {[ py "dataMessage" := JDict {[ py "message" := JStr (py "1 2 tank") ]} ]} ]} ]}.

(** The other two: a [receive] without a data message, and another method. *)
Definition no_data_envelope : json :=
  JDict {[ py "method" := JStr (py "receive");
           py "params" := JDict {[ py "envelope" := JDict ∅ ]} ]}.

Definition subscribe_envelope : json :=
  JDict {[ py "method" := JStr (py "subscribe") ]}.

(** A task that has finished left at least [k] responses fewer than it
    found. *)
Definition advances {A} (t : task A) (k : nat) : Prop :=
  ∀ script w r script' w',
    t script w = (Some r, script', w') → length script' + k ≤ length script.

(** What [while True] unfolds to. *)
Definition iterate (body : task ctl) (again : task unit) : task unit := λ script w,
  match body script w with
  | (Some (Ok Continue), script', w') => again script' w'
  | (Some (Ok Break), script', w') => (Some (Ok tt), script', w')
  | (Some (Raise e), script', w') => (Some (Raise e), script', w')
  | (None, script', w') => (None, script', w')
  end.

(** The record of the [except] clause that catches [e]. *)
Definition error_record (e : exn) : log_msg :=
  match e with
  | ConnectionRefusedError => Connection_refused
  | _ => Connection_error e
  end.

(** The world after a connection attempt that failed with [e] and the
    delay that follows it. *)
Definition retried (host : str) (port : Z) (e : exn) (w : world) : world :=
  acted [Sleep 5] (logged ERROR (error_record e) (acted [Open_connection host port] w)).

(** The world after a connection that was opened, failed with [e] at its
    first read and was closed, and the delay that follows it. *)
Definition dropped (host : str) (port : Z) (e : exn) (w : world) : world :=
  acted [Sleep 5]
    (logged ERROR (error_record e)
       (acted [Wait_closed]
          (acted [Writer_close]
             (acted [Readline]
                (logged INFO (Connected host port)
                   (acted [Open_connection host port] w)))))).

(** The world after a connection that was opened and found at its end at
    the first read, and was closed. *)
Definition ended (host : str) (port : Z) (w : world) : world :=
  acted [Wait_closed]
    (acted [Writer_close]
       (logged WARNING Connection_closed_by_server
          (acted [Readline]
             (logged INFO (Connected host port)
                (acted [Open_connection host port] w))))).

(** [n] refused connection attempts, each followed by a delay that elapses. *)
Definition refusals (n : nat) : list resp :=
  mjoin (replicate n [Fail ConnectionRefusedError; Done []]).

(** The world after [run cmd] started the daemon. *)
Definition started (cmd : str) (w : world) : world :=
  logged INFO (Started_process cmd)
    (daemon_set Running (acted [Create_subprocess_shell cmd] w)).

(** The world after [terminate()] returned and [wait()] was called, and
    after [wait()] returned. *)
Definition signalled (w : world) : world :=
  acted [Wait] (daemon_set Terminating (acted [Terminate] w)).
Definition reaped (w : world) : world := daemon_set Exited (signalled w).

(** How the scope ends once its body has ended with [r]: it calls
    [terminate()]; when that raises, the scope ends with its exception;
    when it returns, the scope awaits [wait()], and passes [r] on when the
    wait returns. *)
Definition after_cleanup {A} (r : result A) (script : list resp) (w : world)
  : option (result A) * list resp * world :=
  match script with
  | [] => (None, [], acted [Terminate] w)
  | Fail e :: rest => (Some (Raise e), rest, acted [Terminate] w)
  | [Done _] => (None, [], signalled w)
  | Done _ :: Done _ :: rest => (Some r, rest, reaped w)
  | Done _ :: Fail e :: rest => (Some (Raise e), rest, signalled w)
  end.

(** The world after a connection that was opened, whose first read raised,
    and that was closed. *)
Definition interrupted (host : str) (port : Z) (w : world) : world :=
  acted [Wait_closed]
    (acted [Writer_close]
       (acted [Readline]
          (logged INFO (Connected host port)
             (acted [Open_connection host port] w)))).

(** A handler that raises nothing but [Exception]s. *)
Definition raises_exceptions (handler : option (json → M unit)) : Prop :=
  ∀ h v w e w', handler = Some h → h v w = (Raise e, w') → is_Exception e = true.

(** A script in which every await succeeds. *)
Definition only_done (script : list resp) : Prop :=
  Forall (λ r, match r with Done _ => True | Fail _ => False end) script.

(** A task uses up a prefix of its script; an exception it raises satisfies
    [P] or was delivered in that prefix; and it is suspended only with the
    script used up. *)
Definition fair {A} (P : exn → Prop) (t : task A) : Prop :=
  ∀ script w o script' w',
    t script w = (o, script', w') →
    ∃ used, script = used ++ script' ∧
      match o with
      | Some (Ok _) => True
      | Some (Raise e) => P e ∨ Fail e ∈ used
      | None => script' = []
      end.

(** Every run of the task relates the world (and script) it ends in to the
    one it started in: by [R true] when it has finished, by [R false] when
    it is suspended. *)
Definition keeps {A} (R : bool → list resp * world → list resp * world → Prop)
    (t : task A) : Prop :=
  ∀ script w o script' w',
    t script w = (o, script', w') →
    R (match o with Some _ => true | None => false end) (script, w) (script', w').

(** What the relation must satisfy for [keeps] to follow the structure of a
    task. *)
Record stepwise (R : bool → list resp * world → list resp * world → Prop) : Prop := {
  stepwise_refl b x : R b x x;
  stepwise_trans b x y z : R true x y → R b y z → R b x z
}.

(** The queue only grows, at its end, by payloads that are not empty, and
    by no more of them than responses were used. *)
Definition queue_grows (_ : bool) (x y : list resp * world) : Prop :=
  ∃ items, queue y.2 = queue x.2 ++ items ∧
           Forall (λ item, item ≠ []) items ∧
           length items + length y.1 ≤ length x.1.

(** The connections that were opened, by the record the client writes when
    [open_connection] has returned, and the calls of [writer.close()]. *)
Definition is_connected (r : level * log_msg) : bool :=
  match r with
  | (INFO, Connected _ _) => true
  | _ => false
  end.

Definition is_close (a : action) : bool :=
  match a with
  | Writer_close => true
  | _ => false
  end.

Definition opened (w : world) : nat := length (List.filter is_connected (log w)).
Definition closed (w : world) : nat := length (List.filter is_close (trace w)).

(** Nothing is opened and nothing is closed. *)
Definition connections_kept (_ : bool) (x y : list resp * world) : Prop :=
  opened y.2 = opened x.2 ∧ closed y.2 = closed x.2.

(** A task that has finished has closed what it opened; a suspended one
    may hold one connection open. *)
Definition connections_balanced (finished : bool) (x y : list resp * world) : Prop :=
  if finished then opened y.2 + closed x.2 = opened x.2 + closed y.2
  else opened x.2 + closed y.2 ≤ opened y.2 + closed x.2 ≤ opened x.2 + closed y.2 + 1.

(** The world after a connection that was opened, read a line it logged as
    [line_str], failed with [e] on it and was closed, and the delay that
    follows it. *)
Definition dropped_on_line (host : str) (port : Z) (line_str : str) (e : exn) (w : world)
  : world :=
  acted [Sleep 5]
    (logged ERROR (error_record e)
       (acted [Wait_closed]
          (acted [Writer_close]
             (logged DEBUG (Raw line_str)
                (acted [Readline]
                   (logged INFO (Connected host port)
                      (acted [Open_connection host port] w))))))).

(** ** A runtime to run the model on examples

    The theorems below hold for every [Runtime]. This one implements part
    of the runtime, for evaluating the model on concrete inputs. *)

Module Example.

Definition lit (s : string) : bytes := list_byte_of_string s.

(** A JSON document, written with apostrophes for its quotes. *)
Definition doc (s : string) : bytes :=
  (λ b, if Byte.eqb b x27 then x22 else b) <$> lit s.

(** The longest prefix whose characters satisfy [p], and the rest. *)
Fixpoint span (p : N → bool) (s : str) : list N * list N :=
  match s with
  | c :: s' => if p c then let (t, r) := span p s' in (c :: t, r) else ([], s)
  | [] => ([], [])
  end.

(** The value of a run of decimal digits, after [acc]. *)
Fixpoint digits (acc : Z) (s : str) : option Z :=
  match s with
  | [] => Some acc
  | c :: s' =>
      if ((0x30 <=? c) && (c <=? 0x39))%N
      then digits (10 * acc + Z.of_N (c - 0x30)) s'
      else None
  end.

(** [float()] on plain decimal literals, [\[+-\]digits\[.digits\]], short
    enough for the mantissa and the power of ten to be exact, so that one
    correctly rounded division gives the nearest binary64, as [float()]
    does. Everything else is refused. *)
Definition decimal_float (s : str) : option float :=
  let '(negative, body) :=
    match s with
    | 0x2D%N :: s' => (true, s')
    | 0x2B%N :: s' => (false, s')
    | _ => (false, s)
    end in
  let '(int_part, frac) := span (λ c, negb (c =? 0x2E)%N) body in
  let frac := match frac with _ :: f => f | [] => [] end in
  match int_part with
  | [] => None
  | _ :: _ =>
      m ← digits 0 (int_part ++ frac);
      if ((m <? 2 ^ 53)%Z && (length frac <=? 22)%nat)%bool
      then let x := PrimFloat.div (PrimFloat.of_uint63 (Uint63Axioms.of_Z m))
                      (PrimFloat.of_uint63 (Uint63Axioms.of_Z (10 ^ Z.of_nat (length frac)))) in
           Some (if negative then PrimFloat.opp x else x)
      else None
  end.

(** UTF-8 decoding of ASCII bytes. *)
Definition ascii_decode (b : bytes) : option (list N) :=
  if forallb (λ x, Byte.to_N x <? 128)%N b then Some (Byte.to_N <$> b) else None.

Definition numbered_uuid (n : nat) : list N :=
  py "00000000-0000-4000-8000-" ++ [(0x30 + N.of_nat n)%N].

(** An encoder that writes the uid and the type code. *)
Definition plain_cot (lat lon : float) (uid : str) (ce le hae : Z) (cot_type : str) (stale : Z)
  : option bytes :=
  Some (omap Byte.of_N (uid ++ py " " ++ cot_type)).

(** *** A JSON reader for documents of objects, arrays, strings without
    escapes, integers and the three literals. *)

Definition json_ws (c : N) : bool := ((c =? 0x20) || (c =? 0x09) || (c =? 0x0A) || (c =? 0x0D))%N.

Fixpoint skip_ws (s : str) : str :=
  match s with
  | c :: s' => if json_ws c then skip_ws s' else s
  | [] => []
  end.

(** The characters up to the closing quote. *)
Fixpoint chars (s : str) : option (list N * list N) :=
  match s with
  | [] => None
  | c :: s' =>
      if (c =? 0x22)%N then Some ([], s')
      else if ((c =? 0x5C) || (c <? 0x20))%N then None
      else '(x, rest) ← chars s'; Some (c :: x, rest)
  end.

Definition number (s : str) : option (json * list N) :=
  let '(negative, body) := match s with 0x2D%N :: s' => (true, s') | _ => (false, s) end in
  let '(ds, rest) := span (λ c, (0x30 <=? c) && (c <=? 0x39))%N body in
  match ds with
  | [] => None
  | _ :: _ => n ← digits 0 ds; Some (JInt (if negative then - n else n)%Z, rest)
  end.

Definition literal (s : str) : option (json * list N) :=
  if is_prefix (py "true") s then Some (JBool true, drop 4 s)
  else if is_prefix (py "false") s then Some (JBool false, drop 5 s)
  else if is_prefix (py "null") s then Some (JNull, drop 4 s)
  else number s.

Fixpoint value (fuel : nat) (s : str) : option (json * list N) :=
  match fuel with
  | 0 => None
  | S fuel =>
      match skip_ws s with
      | c :: s1 =>
          if (c =? 0x22)%N then '(x, s2) ← chars s1; Some (JStr x, s2)
          else if (c =? 0x7B)%N then
            match skip_ws s1 with
            | 0x7D%N :: s2 => Some (JDict ∅, s2)
            | _ => members fuel s1 ∅
            end
          else if (c =? 0x5B)%N then
            match skip_ws s1 with
            | 0x5D%N :: s2 => Some (JList [], s2)
            | _ => elements fuel s1 []
            end
          else literal (c :: s1)
      | [] => None
      end
  end
with members (fuel : nat) (s : str) (acc : gmap (list N) json) : option (json * list N) :=
  match fuel with
  | 0 => None
  | S fuel =>
      match skip_ws s with
      | 0x22%N :: s1 =>
          '(k, s2) ← chars s1;
          match skip_ws s2 with
          | 0x3A%N :: s3 =>
              '(v, s4) ← value fuel s3;
              match skip_ws s4 with
              | 0x2C%N :: s5 => members fuel s5 (<[k:=v]> acc)
              | 0x7D%N :: s5 => Some (JDict (<[k:=v]> acc), s5)
              | _ => None
              end
          | _ => None
          end
      | _ => None
      end
  end
with elements (fuel : nat) (s : str) (acc : list json) : option (json * list N) :=
  match fuel with
  | 0 => None
  | S fuel =>
      '(v, s1) ← value fuel s;
      match skip_ws s1 with
      | 0x2C%N :: s2 => elements fuel s2 (acc ++ [v])
      | 0x5D%N :: s2 => Some (JList (acc ++ [v]), s2)
      | _ => None
      end
  end.

Definition read_json (s : str) : option json :=
  '(v, rest) ← value (S (length s)) s;
  match skip_ws rest with
  | [] => Some v
  | _ :: _ => None
  end.

(** The deepest nesting of brackets and braces in [s], outside strings. *)
Fixpoint nesting (in_string : bool) (depth deepest : nat) (s : str) : nat :=
  match s with
  | [] => deepest
  | c :: s' =>
      if in_string then nesting (negb (c =? 0x22)%N) depth deepest s'
      else if (c =? 0x22)%N then nesting true depth deepest s'
      else if ((c =? 0x5B) || (c =? 0x7B))%N
           then nesting false (S depth) (deepest `max` S depth) s'
      else if ((c =? 0x5D) || (c =? 0x7D))%N then nesting false (pred depth) deepest s'
      else nesting false depth deepest s'
  end.

(** How deep this reader lets a document nest. *)
Definition recursion_limit : nat := 1000.

(** A text that nests deeper than the limit is refused as too deep,
    wherever it does; any other text is read, or is no JSON. *)
Definition load_json (s : str) : loaded :=
  if (recursion_limit <? nesting false 0 0 s)%nat then Too_deep
  else match read_json s with
       | Some v => Loaded v
       | None => Not_JSON
       end.

Definition runtime : Runtime := {|
  float_of_str := decimal_float;
  unicode_lower := id;
  utf8_decode := ascii_decode;
  json_loads := load_json;
  uuid4 := numbered_uuid;
  pytak_gen_cot := plain_cot
|}.

Definition world0 : world := World [] [] 0 [] Not_started.

Definition host : list N := py "localhost".
Definition port : Z := 7583.

(** The line of the specification's end-to-end scenario. *)
Definition scenario_line : bytes :=
  doc "{'method':'receive','params':{'account':'+100','envelope':{'sourceNumber':'+200','dataMessage':{'message':'48.5 39.8 tank'}}}}".

End Example.

(** * Properties *)

(** ** Stripping and splitting *)

Section Text.

Implicit Types s t ws : list N.

Lemma lstrip_space ws s : all_space ws → str_lstrip (ws ++ s) = str_lstrip s.
Proof.
  induction 1 as [|c ws Hc _ IH]; simpl; [done|]. by rewrite Hc.
Qed.

Lemma lstrip_all_space ws : all_space ws → str_lstrip ws = [].
Proof.
  intros H. rewrite <- (app_nil_r ws). by rewrite lstrip_space.
Qed.

Lemma lstrip_starts s : starts_nonspace s → str_lstrip s = s.
Proof. destruct s as [|c s]; simpl; [done|]. by intros ->. Qed.

Lemma lstrip_cases s :
  (all_space s ∧ str_lstrip s = []) ∨
  (∃ ws t, s = ws ++ t ∧ all_space ws ∧ starts_nonspace t ∧ str_lstrip s = t).
Proof.
  induction s as [|c s IH]; simpl.
  - left. split; [constructor | done].
  - destruct (isspace c) eqn:Hc.
    + destruct IH as [[Hs ->] | (ws & t & -> & Hws & Ht & ->)].
      * left. split; [by constructor | done].
      * right. exists (c :: ws), t. repeat split; [by constructor | done].
    + right. exists [], (c :: s). repeat split; [constructor | done].
Qed.

Lemma lstrip_result s c r : str_lstrip s = c :: r → isspace c = false.
Proof.
  destruct (lstrip_cases s) as [[_ ->] | (ws & t & _ & _ & Ht & ->)]; [done|].
  intros ->. exact Ht.
Qed.

Lemma all_space_reverse ws : all_space ws → all_space (reverse ws).
Proof. unfold all_space. by rewrite Forall_reverse. Qed.

Lemma rstrip_space s ws : all_space ws → str_rstrip (s ++ ws) = str_rstrip s.
Proof.
  intros H. unfold str_rstrip. rewrite reverse_app.
  by rewrite lstrip_space by by apply all_space_reverse.
Qed.

Lemma rstrip_ends s : ends_nonspace s → str_rstrip s = s.
Proof.
  intros H. unfold str_rstrip. rewrite lstrip_starts by done. apply reverse_involutive.
Qed.

(** Whitespace added around a text does not change what [strip] returns. *)
Lemma strip_pad pre t post :
  all_space pre → all_space post → str_strip (pre ++ t ++ post) = str_strip t.
Proof.
  intros Hpre Hpost. unfold str_strip. rewrite lstrip_space by done.
  destruct (lstrip_cases t) as [[Ht E] | (ws & u & -> & Hws & Hu & E)].
  - rewrite E, lstrip_all_space; [done|]. unfold all_space. by apply Forall_app.
  - rewrite E. rewrite <- (assoc_L (++)), lstrip_space by done.
    rewrite lstrip_starts by (destruct u; done). by apply rstrip_space.
Qed.

Lemma strip_trimmed s : starts_nonspace s → ends_nonspace s → str_strip s = s.
Proof.
  intros H1 H2. unfold str_strip. rewrite lstrip_starts by done. by apply rstrip_ends.
Qed.

Lemma token_app a rest :
  no_space a → match rest with c :: _ => isspace c = true | [] => True end →
  token (a ++ rest) = (a, rest).
Proof.
  intros Ha Hr. induction Ha as [|c a Hc _ IH]; simpl.
  - destruct rest as [|c r]; simpl; [done|]. by rewrite Hr.
  - by rewrite Hc, IH.
Qed.

Lemma token_nonempty c s : isspace c = false → (token (c :: s)).1 ≠ [].
Proof. simpl. intros ->. by destruct (token s). Qed.

(** Every token [split] returns is non-empty. *)
Lemma split_nonempty n s : Forall (λ t, t ≠ []) (str_split n s).
Proof.
  revert s. induction n as [|n IH]; intros s; cbn [str_split].
  - destruct (str_lstrip s); by repeat constructor.
  - destruct (str_lstrip s) as [|c r] eqn:E; [constructor|].
    pose proof (token_nonempty c r (lstrip_result _ _ _ E)) as Hne.
    destruct (token (c :: r)) as [tok rest]. constructor; [exact Hne | apply IH].
Qed.

(** Three fields separated by whitespace are the three tokens. *)
Lemma split_three a w1 b w2 c :
  no_space a → a ≠ [] → all_space w1 → w1 ≠ [] →
  no_space b → b ≠ [] → all_space w2 → w2 ≠ [] →
  starts_nonspace c →
  str_split 2 (a ++ w1 ++ b ++ w2 ++ c) = [a; b; c].
Proof.
  intros Ha Hane Hw1 Hw1ne Hb Hbne Hw2 Hw2ne Hc.
  assert (Hsa : starts_nonspace (a ++ w1 ++ b ++ w2 ++ c)).
  { destruct a as [|x a]; [done|]. by inversion Ha. }
  assert (Hsb : starts_nonspace (b ++ w2 ++ c)).
  { destruct b as [|x b]; [done|]. by inversion Hb. }
  cbn [str_split]. rewrite (lstrip_starts _ Hsa).
  destruct (a ++ w1 ++ b ++ w2 ++ c) as [|x r] eqn:E; [done|]. rewrite <- E.
  rewrite token_app; [|done|]; last first.
  { destruct w1 as [|y w1]; [done|]. by inversion Hw1. }
  rewrite lstrip_space, (lstrip_starts _ Hsb) by done.
  destruct (b ++ w2 ++ c) as [|y r'] eqn:E'; [done|]. rewrite <- E'.
  rewrite token_app; [|done|]; last first.
  { destruct w2 as [|z w2]; [done|]. by inversion Hw2. }
  rewrite lstrip_space, (lstrip_starts _ Hc) by done.
  by destruct c.
Qed.

End Text.

(** ** The marker event model *)

Ltac run_M :=
  unfold mbind, M_bind, mret, M_ret, try_except, raise, logger, queue_put, draw_uuid; cbn.

Section Model.

Context `{RT : Runtime}.

Implicit Types text a b c d : list N.
Implicit Types w : world.

Lemma new_CoordinateMessage_ok x y d w :
  lat_in_range x = true → lon_in_range y = true → d ≠ [] →
  new_CoordinateMessage x y d w =
    (Ok {| lat := x; lon := y; description := d; affiliation := UNKNOWN;
           event_id := py "Signal-Bot-" ++ uuid4 (uuid_draws w) |}, drawn w).
Proof.
  intros Hx Hy Hd. unfold new_CoordinateMessage, __post_init__. run_M.
  rewrite Hx, Hy. cbn. by destruct d.
Qed.

Lemma new_CoordinateMessage_bad_lat x y d w :
  lat_in_range x = false →
  new_CoordinateMessage x y d w = (Raise (ValueError (Invalid_latitude x)), drawn w).
Proof.
  intros Hx. unfold new_CoordinateMessage, __post_init__. run_M. by rewrite Hx.
Qed.

Lemma new_CoordinateMessage_bad_lon x y d w :
  lat_in_range x = true → lon_in_range y = false →
  new_CoordinateMessage x y d w = (Raise (ValueError (Invalid_longitude y)), drawn w).
Proof.
  intros Hx Hy. unfold new_CoordinateMessage, __post_init__. run_M. by rewrite Hx, Hy.
Qed.

Lemma from_string_tokens text a b c x y w :
  str_split 2 (str_strip text) = [a; b; c] →
  float_of_str a = Some x → float_of_str b = Some y →
  from_string text w = new_CoordinateMessage x y c w.
Proof.
  intros E Ha Hb. unfold from_string, float_. rewrite E, Ha, Hb. by run_M.
Qed.

Lemma from_string_not_floats text a b c w :
  str_split 2 (str_strip text) = [a; b; c] →
  float_of_str a = None ∨ float_of_str b = None →
  from_string text w = (Raise (ValueError Invalid_coordinates), w).
Proof.
  intros E H. unfold from_string, float_. rewrite E.
  destruct (float_of_str a); [|by run_M].
  destruct H as [H|H]; [done|]. rewrite H. by run_M.
Qed.

Lemma from_string_not_three text w :
  length (str_split 2 (str_strip text)) ≠ 3 →
  from_string text w = (Raise (ValueError (Expected_lat_lon_label text)), w).
Proof.
  intros H. unfold from_string.
  destruct (str_split 2 (str_strip text)) as [|a [|b [|c [|]]]]; done.
Qed.

(** What a call of [from_string] did, read off its outcome. *)
Lemma from_string_inv text w r w' :
  from_string text w = (r, w') →
  match r with
  | Ok m =>
      ∃ a b, str_split 2 (str_strip text) = [a; b; description m] ∧
             float_of_str a = Some (lat m) ∧ float_of_str b = Some (lon m) ∧
             lat_in_range (lat m) = true ∧ lon_in_range (lon m) = true ∧
             description m ≠ [] ∧ affiliation m = UNKNOWN ∧
             event_id m = py "Signal-Bot-" ++ uuid4 (uuid_draws w) ∧
             w' = drawn w
  | Raise e =>
      ∃ why, e = ValueError why ∧ why ≠ Label_cannot_be_empty ∧
             queue w' = queue w ∧ log w' = log w
  end.
Proof.
  destruct (decide (length (str_split 2 (str_strip text)) = 3)) as [Hlen|Hlen].
  - pose proof (split_nonempty 2 (str_strip text)) as Hne.
    destruct (str_split 2 (str_strip text)) as [|a [|b [|c [|]]]] eqn:E; try done.
    assert (Hc : c ≠ []).
    { apply Forall_cons_1 in Hne as [_ Hne]. apply Forall_cons_1 in Hne as [_ Hne].
      by apply Forall_cons_1 in Hne as [Hne _]. }
    destruct (float_of_str a) as [x|] eqn:Ha; last first.
    { rewrite (from_string_not_floats _ _ _ _ _ E) by auto. intros [= <- <-]. eauto 6. }
    destruct (float_of_str b) as [y|] eqn:Hb; last first.
    { rewrite (from_string_not_floats _ _ _ _ _ E) by auto. intros [= <- <-]. eauto 6. }
    rewrite (from_string_tokens _ _ _ _ _ _ _ E Ha Hb).
    destruct (lat_in_range x) eqn:Hx; last first.
    { rewrite new_CoordinateMessage_bad_lat by done. intros [= <- <-]. eauto 6. }
    destruct (lon_in_range y) eqn:Hy; last first.
    { rewrite new_CoordinateMessage_bad_lon by done. intros [= <- <-]. eauto 6. }
    rewrite new_CoordinateMessage_ok by done. intros [= <- <-]. cbn. eauto 12.
  - rewrite from_string_not_three by done. intros [= <- <-]. eauto 6.
Qed.

End Model.

Section Event.

Context `{RT : Runtime}.

Implicit Types text a b c d pre post : list N.
Implicit Types w : world.

Lemma handler_run text w :
  _cot_message_handler (JStr text) w =
    match from_string text w with
    | (Ok m, w1) =>
        match gen_cot m 0 120 50 9999999 with
        | Some ((_ :: _) as cot_bytes) => queue_put cot_bytes w1
        | _ => logger WARNING (Failed_to_generate (JStr text)) w1
        end
    | (Raise _, w1) => logger WARNING (Could_not_be_parsed (JStr text)) w1
    end.
Proof.
  unfold _cot_message_handler, as_text, try_except, mbind, M_bind, mret, M_ret. cbn.
  destruct (from_string text w) as [[m|e] w1] eqn:E.
  - destruct (gen_cot m 0 120 50 9999999) as [[|x cot_bytes]|]; done.
  - apply from_string_inv in E as (why & -> & _). done.
Qed.

(** C1. A text "<lat> <lon> <label>" whose first two fields are floats in
    range parses to an event with exactly these values and a non-empty
    event id; two calls on the same text give different event ids (uuid4
    does not repeat a draw); a text that does not split into three tokens,
    or whose first two tokens are not floats, raises ValueError. *)
Theorem from_string_valid_input :
  (∀ pre a s1 b s2 c post x y w,
     all_space pre → all_space post →
     no_space a → a ≠ [] → all_space s1 → s1 ≠ [] →
     no_space b → b ≠ [] → all_space s2 → s2 ≠ [] →
     starts_nonspace c → ends_nonspace c →
     float_of_str a = Some x → float_of_str b = Some y →
     lat_in_range x = true → lon_in_range y = true →
     ∃ m, from_string (pre ++ (a ++ s1 ++ b ++ s2 ++ c) ++ post) w = (Ok m, drawn w) ∧
          lat m = x ∧ lon m = y ∧ description m = c ∧ event_id m ≠ [])
  ∧ (∀ text w1 m1 w1' w2 m2 w2',
       (∀ i j, uuid4 i = uuid4 j → i = j) →
       from_string text w1 = (Ok m1, w1') → uuid_draws w1' ≤ uuid_draws w2 →
       from_string text w2 = (Ok m2, w2') →
       event_id m1 ≠ event_id m2)
  ∧ (∀ text w,
       length (str_split 2 (str_strip text)) ≠ 3 →
       ∃ why, from_string text w = (Raise (ValueError why), w))
  ∧ (∀ text a b c w,
       str_split 2 (str_strip text) = [a; b; c] →
       float_of_str a = None ∨ float_of_str b = None →
       ∃ why, from_string text w = (Raise (ValueError why), w)).
Proof.
  repeat split.
  - intros pre a s1 b s2 c post x y w Hpre Hpost Ha Hane Hs1 Hs1ne Hb Hbne Hs2 Hs2ne
      Hc Hc' Hx Hy Hlat Hlon.
    assert (Hsplit : str_split 2 (str_strip (pre ++ (a ++ s1 ++ b ++ s2 ++ c) ++ post))
                     = [a; b; c]).
    { rewrite strip_pad by done. rewrite strip_trimmed; [by apply split_three | |].
      - destruct a as [|k a]; [done|]. by inversion Ha.
      - unfold ends_nonspace in *. rewrite !reverse_app.
        destruct (reverse c); [done|]. exact Hc'. }
    rewrite (from_string_tokens _ _ _ _ _ _ _ Hsplit Hx Hy).
    rewrite new_CoordinateMessage_ok; [|done|done|by destruct c].
    eexists. split; [done|]. by cbn.
  - intros text w1 m1 w1' w2 m2 w2' Hinj E1 Hle E2.
    apply from_string_inv in E1 as (_ & _ & _ & _ & _ & _ & _ & _ & _ & Hid1 & ->).
    apply from_string_inv in E2 as (_ & _ & _ & _ & _ & _ & _ & _ & _ & Hid2 & _).
    rewrite Hid1, Hid2. intros Heq%(inj (app _)). apply Hinj in Heq.
    cbn in Hle. lia.
  - intros text w H. eexists. by apply from_string_not_three.
  - intros text a b c w E H. eexists. by eapply from_string_not_floats.
Qed.

(** C3. A latitude or longitude out of range makes the construction raise
    ValueError, and the handler enqueues nothing for that message. *)
Theorem out_of_range_rejected text a b c x y w :
  str_split 2 (str_strip text) = [a; b; c] →
  float_of_str a = Some x → float_of_str b = Some y →
  lat_in_range x = false ∨ lon_in_range y = false →
  ∃ why,
    new_CoordinateMessage x y c w = (Raise (ValueError why), drawn w) ∧
    from_string text w = (Raise (ValueError why), drawn w) ∧
    ∃ w', _cot_message_handler (JStr text) w = (Ok tt, w') ∧ queue w' = queue w.
Proof.
  intros E Ha Hb Hrange.
  assert (∃ why, new_CoordinateMessage x y c w = (Raise (ValueError why), drawn w))
    as [why Hnew].
  { destruct (lat_in_range x) eqn:Hx.
    - destruct Hrange as [|Hy]; [done|]. eexists. by apply new_CoordinateMessage_bad_lon.
    - eexists. by apply new_CoordinateMessage_bad_lat. }
  exists why. split; [done|].
  rewrite handler_run, (from_string_tokens _ _ _ _ _ _ _ E Ha Hb), Hnew.
  split; [done|]. eexists. split; [reflexivity|]. done.
Qed.

(** C4. On a text the handler never raises: a text that does not parse or
    validate is logged at warning level and dropped, an encoder that returns
    nothing is logged at warning level and nothing is enqueued, and
    otherwise exactly the encoded buffer is enqueued; so a call enqueues at
    most one item. *)
Theorem handler_never_raises text w :
  ∃ w', _cot_message_handler (JStr text) w = (Ok tt, w') ∧
    (queue w' = queue w ∨ ∃ item, queue w' = queue w ++ [item]) ∧
    match from_string text w with
    | (Raise _, _) =>
        queue w' = queue w ∧
        log w' = log w ++ [(WARNING, Could_not_be_parsed (JStr text))]
    | (Ok m, _) =>
        match gen_cot m 0 120 50 9999999 with
        | Some ((_ :: _) as cot_bytes) =>
            queue w' = queue w ++ [cot_bytes] ∧ log w' = log w
        | _ =>
            queue w' = queue w ∧
            log w' = log w ++ [(WARNING, Failed_to_generate (JStr text))]
        end
    end.
Proof.
  rewrite handler_run.
  destruct (from_string text w) as [[m|e] w1] eqn:E; apply from_string_inv in E.
  - destruct E as (_ & _ & _ & _ & _ & _ & _ & _ & _ & _ & ->).
    destruct (gen_cot m 0 120 50 9999999) as [[|k cot_bytes]|];
      eexists; (split; [reflexivity|]); cbn; eauto.
  - destruct E as (why & -> & _ & Hq & Hl).
    eexists. split; [reflexivity|]. cbn. rewrite Hq, Hl. auto.
Qed.

(** X6. The handler is called with whatever the document held under
    [message]: a value that is true and no string has no [strip], and the
    AttributeError is not caught. *)
Theorem handler_raises_on_other_values (v : json) w :
  (∀ s, v ≠ JStr s) → _cot_message_handler v w = (Raise AttributeError, w).
Proof. intros H. destruct v; try reflexivity. by destruct (H s). Qed.

Lemma COT_TYPE_MAP_nonempty k v : COT_TYPE_MAP !! k = Some v → v ≠ [].
Proof.
  intros H%elem_of_list_to_map_2.
  repeat (apply elem_of_cons in H as [[= _ ->]|H]; [by vm_compute|]).
  by apply elem_of_nil in H.
Qed.

Lemma cot_type_category m :
  cot_type m = py "a-" ++ Affiliation_value (affiliation m) ++ py "-"
                 ++ category_code (description m).
Proof.
  unfold cot_type, category_code.
  destruct (COT_TYPE_MAP !! str_lower (description m)) as [v|] eqn:E; [|done].
  apply COT_TYPE_MAP_nonempty in E. by destruct v.
Qed.

Lemma lower_same_up_to_case d1 d2 :
  forallb is_ascii d1 = true → forallb is_ascii d2 = true →
  same_up_to_case d1 d2 → str_lower d1 = str_lower d2.
Proof.
  intros H1 H2 H. unfold str_lower. rewrite H1, H2. clear H1 H2.
  induction H as [|x y d1 d2 Hxy _ IH]; [done|]. cbn. by rewrite Hxy, IH.
Qed.

(** C5. The type code is "a-", the affiliation letter, "-" and the category
    code of the lowercased label; labels with the same lowercase form, so
    ASCII labels that differ only in case, have the same category code; a label without a table entry gets "G-U"; an event
    parsed from chat text has the prefix "a-u-". *)
Theorem cot_type_composition :
  (∀ m, cot_type m = py "a-" ++ Affiliation_value (affiliation m) ++ py "-"
                       ++ category_code (description m))
  ∧ (∀ d1 d2, str_lower d1 = str_lower d2 → category_code d1 = category_code d2)
  ∧ (∀ d1 d2, forallb is_ascii d1 = true → forallb is_ascii d2 = true →
              same_up_to_case d1 d2 → category_code d1 = category_code d2)
  ∧ (category_code (py "Tank") = py "G-U-C-F-M" ∧
     category_code (py "tank") = py "G-U-C-F-M" ∧
     category_code (py "TANK") = py "G-U-C-F-M")
  ∧ (∀ d, COT_TYPE_MAP !! str_lower d = None → category_code d = py "G-U")
  ∧ category_code (py "spaceship") = py "G-U"
  ∧ (∀ text w m w', from_string text w = (Ok m, w') →
                    cot_type m = py "a-u-" ++ category_code (description m)).
Proof.
  split; [exact cot_type_category|].
  split. { intros d1 d2 H. unfold category_code. by rewrite H. }
  split. { intros d1 d2 H1 H2 H. unfold category_code. by rewrite (lower_same_up_to_case d1 d2). }
  split. { by vm_compute. }
  split. { intros d H. unfold category_code. by rewrite H. }
  split. { by vm_compute. }
  intros text w m w' E. apply from_string_inv in E as (_ & _ & _ & _ & _ & _ & _ & _ & Ha & _).
  rewrite cot_type_category, Ha. done.
Qed.

(** C9. An event built by from_string has a non-empty description: the
    third token of a whitespace split is never empty, so from_string never
    fails with "Label cannot be empty". *)
Theorem from_string_label_nonempty text w r w' :
  from_string text w = (r, w') →
  match r with
  | Ok m => description m ≠ []
  | Raise e => e ≠ ValueError Label_cannot_be_empty
  end.
Proof.
  intros E. apply from_string_inv in E. destruct r as [m|e].
  - by destruct E as (_ & _ & _ & _ & _ & _ & _ & H & _).
  - destruct E as (why & -> & Hne & _). by intros [= ->].
Qed.

(** C10. Whitespace added before and after a text does not change what
    from_string does with it: both calls fail with a ValueError, or both
    succeed with the same latitude, longitude and description. *)
Theorem from_string_strip_invariant pre text post w :
  all_space pre → all_space post →
  match from_string text w, from_string (pre ++ text ++ post) w with
  | (Ok m, _), (Ok m', _) =>
      lat m' = lat m ∧ lon m' = lon m ∧ description m' = description m
  | (Raise e, _), (Raise e', _) => is_ValueError e = true ∧ is_ValueError e' = true
  | _, _ => False
  end.
Proof.
  intros Hpre Hpost.
  destruct (decide (length (str_split 2 (str_strip text)) = 3)) as [Hlen|Hlen].
  - destruct (str_split 2 (str_strip text)) as [|a [|b [|c [|]]]] eqn:E; try done.
    assert (E' : str_split 2 (str_strip (pre ++ text ++ post)) = [a; b; c])
      by by rewrite strip_pad.
    destruct (float_of_str a) as [x|] eqn:Ha; last first.
    { rewrite (from_string_not_floats _ _ _ _ _ E), (from_string_not_floats _ _ _ _ _ E')
        by auto. done. }
    destruct (float_of_str b) as [y|] eqn:Hb; last first.
    { rewrite (from_string_not_floats _ _ _ _ _ E), (from_string_not_floats _ _ _ _ _ E')
        by auto. done. }
    rewrite (from_string_tokens _ _ _ _ _ _ _ E Ha Hb),
      (from_string_tokens _ _ _ _ _ _ _ E' Ha Hb).
    destruct (new_CoordinateMessage x y c w) as [[m|e] w1] eqn:En; [done|].
    rewrite <- (from_string_tokens _ _ _ _ _ _ _ E Ha Hb) in En.
    apply from_string_inv in En as (why & -> & _). done.
  - rewrite (from_string_not_three text), (from_string_not_three (pre ++ text ++ post));
      [done| by rewrite strip_pad | done].
Qed.

End Event.

(** ** The envelope router *)

Section Router.

Implicit Types w : world.
Implicit Types handler : json → M unit.

(** C2, where the code departs from it: on the envelope that carries the
    text "1 2 tank" and no [account], formatting the log record slices
    [None], and the TypeError leaves the router before the handler is
    called. *)
Theorem bare_text_envelope_raises handler w :
  handle_socket_message bare_text_envelope (Some handler) (py "dataMessage") w
  = (Raise TypeError, w).
Proof. by vm_compute. Qed.

(** X2. A [receive] without a data message returns at once, and a
    notification of another method is noted at debug level; neither reaches
    the handler. *)
Theorem other_envelopes_ignored handler w :
  handle_socket_message no_data_envelope (Some handler) (py "dataMessage") w = (Ok tt, w)
  ∧ handle_socket_message subscribe_envelope (Some handler) (py "dataMessage") w
    = (Ok tt, logged DEBUG (Other_notification subscribe_envelope) w).
Proof. split; by vm_compute. Qed.

(** What the router does with a text message whose account and source
    number can be shown in the log record. *)
Lemma route_text (message params envelope data : gmap (list N) json)
    (account source : list N) (text : json) (hanlder : option (json → M unit)) w :
  message !! py "method" = Some (JStr (py "receive")) →
  message !! py "params" = Some (JDict params) →
  params !! py "envelope" = Some (JDict envelope) →
  params !! py "account" = Some (JStr account) →
  envelope !! py "sourceNumber" = Some (JStr source) → source ≠ [] →
  envelope !! py "dataMessage" = Some (JDict data) →
  data !! py "message" = Some text → truthy text = true →
  handle_socket_message (JDict message) hanlder (py "dataMessage") w
  = let w' := logged INFO (Message_from (JStr (take 7 account)) (JStr (take 10 source)) text) w in
    match hanlder with
    | Some handler => handler text w'
    | None => (Ok tt, w')
    end.
Proof.
  intros Hm Hp He Ha Hs Hne Hd Ht Htext.
  unfold handle_socket_message, dict_get, py_in, slice_to. run_M.
  rewrite Hm. cbn. rewrite Hp. cbn. rewrite He. cbn. rewrite Hd. cbn.
  rewrite Ha, Hs. cbn. destruct source as [|k source]; [done|]. cbn.
  rewrite Ht, Htext. by destruct hanlder.
Qed.

(** X1. With an account and a source number to show in the log record, the
    text is logged at info level and handed to the handler, once; without a
    handler it is only logged. *)
Theorem text_envelope_routed (message params envelope data : gmap (list N) json)
    (account source : list N) (text : json) handler w :
  message !! py "method" = Some (JStr (py "receive")) →
  message !! py "params" = Some (JDict params) →
  params !! py "envelope" = Some (JDict envelope) →
  params !! py "account" = Some (JStr account) →
  envelope !! py "sourceNumber" = Some (JStr source) → source ≠ [] →
  envelope !! py "dataMessage" = Some (JDict data) →
  data !! py "message" = Some text → truthy text = true →
  let w' := logged INFO (Message_from (JStr (take 7 account)) (JStr (take 10 source)) text) w in
  handle_socket_message (JDict message) (Some handler) (py "dataMessage") w = handler text w'
  ∧ handle_socket_message (JDict message) None (py "dataMessage") w = (Ok tt, w').
Proof.
  intros Hm Hp He Ha Hs Hne Hd Ht Htext w'.
  split; by rewrite (route_text _ _ _ _ _ _ _ _ _ Hm Hp He Ha Hs Hne Hd Ht Htext).
Qed.

End Router.

(** ** Tasks and loops *)

Section Tasks.

Context {A B : Type}.

Lemma advances_weaken (t : task A) k k' : advances t k → k' ≤ k → advances t k'.
Proof. intros H Hle script w r script' w' E. apply H in E. lia. Qed.

Lemma advances_ret (a : A) : advances (mret a) 0.
Proof. intros script w r script' w' [= _ <- _]. lia. Qed.

Lemma advances_lift (m : M A) : advances (lift m) 0.
Proof.
  intros script w r script' w'. unfold lift. destruct (m w). intros [= _ <- _]. lia.
Qed.

(** Only the first task of a sequence is sure to run. *)
Lemma advances_bind (t : task A) (f : A → task B) k :
  advances t k → (∀ a, advances (f a) 0) → advances (t ≫= f) k.
Proof.
  intros Ht Hf script w r script' w'. unfold mbind, task_bind.
  destruct (t script w) as [[[[a|e]|] s1] w1] eqn:E; [| |done]; apply Ht in E.
  - intros E'. apply Hf in E'. lia.
  - intros [= _ <- _]. done.
Qed.

Lemma advances_try_except (body : task A) handler k :
  advances body k → (∀ e h, handler e = Some h → advances h 0) →
  advances (task_try_except body handler) k.
Proof.
  intros Hb Hh script w r script' w'. unfold task_try_except.
  destruct (body script w) as [[[[a|e]|] s1] w1] eqn:E; [|  |done].
  - intros [= <- <- <-]. by apply Hb in E.
  - apply Hb in E. destruct (handler e) as [h|] eqn:Eh.
    + intros E'. apply (Hh _ _ Eh) in E'. lia.
    + intros [= <- <- <-]. done.
Qed.

Lemma advances_try_finally (body : task A) final k :
  advances body k → advances final 0 → advances (task_try_finally body final) k.
Proof.
  intros Hb Hf script w r script' w'. unfold task_try_finally.
  destruct (body script w) as [[[r1|] s1] w1] eqn:E; [|done].
  apply Hb in E.
  destruct (final s1 w1) as [[[[[]|e]|] s2] w2] eqn:E'; [| |done];
    apply Hf in E'; intros [= <- <- <-]; lia.
Qed.

End Tasks.

Lemma advances_await a : advances (await a) 1.
Proof.
  intros script w r script' w'. unfold await. cbn.
  destruct script as [|[d|e] rest]; [done|..]; intros [= _ <- _]; cbn; lia.
Qed.

Lemma advances_while_fuel n body : advances body 0 → advances (while_fuel n body) 0.
Proof.
  intros Hb. induction n as [|n IH]; intros script w r script' w'; cbn; [done|].
  destruct (body script w) as [[[[[]|e]|] s1] w1] eqn:E; [| | |done]; apply Hb in E.
  - intros E'. apply IH in E'. lia.
  - intros [= _ <- _]. done.
  - intros [= _ <- _]. done.
Qed.

Lemma advances_while_true body : advances body 0 → advances (while_true body) 0.
Proof. intros Hb script w. apply advances_while_fuel. done. Qed.

(** The fuel [while_true] starts with is enough: more changes nothing. *)
Lemma while_fuel_enough body n m script w :
  advances body 1 → length script < n → length script < m →
  while_fuel n body script w = while_fuel m body script w.
Proof.
  intros Hb. revert m script w.
  induction n as [|n IH]; intros [|m] script w Hn Hm; [lia..|]. cbn.
  destruct (body script w) as [[[[[]|e]|] s1] w1] eqn:E; [|done..].
  apply Hb in E. apply IH; lia.
Qed.

(** A loop whose body awaits in every iteration runs its body, and then
    itself again. *)
Lemma while_true_unfold body :
  advances body 1 → ∀ script w, while_true body script w = iterate body (while_true body) script w.
Proof.
  intros Hb script w. unfold while_true at 1, iterate. cbn [while_fuel].
  destruct (body script w) as [[[[[]|e]|] s1] w1] eqn:E; [|done..].
  apply Hb in E. unfold while_true. apply while_fuel_enough; [done|lia..].
Qed.

(** A loop whose body never breaks does not return. *)
Lemma while_fuel_no_break n body script w :
  (∀ script w script' w', body script w ≠ (Some (Ok Break), script', w')) →
  (while_fuel n body script w).1.1 ≠ Some (Ok tt).
Proof.
  intros Hb. revert script w. induction n as [|n IH]; intros script w; cbn; [done|].
  destruct (body script w) as [[[[[]|e]|] s1] w1] eqn:E; cbn; [apply IH| |done..].
  by apply Hb in E.
Qed.

(** ** The reconnecting line client *)

Ltac run_task :=
  unfold mbind, task_bind, mret, task_ret, task_try_except, task_try_finally, iterate,
    lift, await, retry_later, act, logger, M_bind, M_ret; cbn.

Section Client.

Context `{RT : Runtime}.

#[local] Arguments handle_socket_message : simpl never.

Implicit Types w : world.
Implicit Types handler : option (json → M unit).

Lemma read_line_advances handler : advances (read_line handler) 1.
Proof.
  unfold read_line. apply advances_bind; [apply advances_await|]. intros [|x line].
  - apply advances_bind; [apply advances_lift | intros; apply advances_ret].
  - apply advances_bind; [apply advances_lift|]. intros decoded.
    destruct (str_strip decoded); [apply advances_ret|].
    repeat (apply advances_bind; [apply advances_lift | intros]). apply advances_ret.
Qed.

Lemma serve_connection_advances handler : advances (serve_connection handler) 0.
Proof.
  apply advances_try_finally.
  - apply advances_while_true. eapply advances_weaken; [apply read_line_advances | lia].
  - apply advances_bind; [apply advances_lift | intros].
    apply advances_bind; [|intros; apply advances_ret].
    eapply advances_weaken; [apply advances_await | lia].
Qed.

Lemma retry_later_advances m : advances (retry_later m) 0.
Proof.
  apply advances_bind; [apply advances_lift | intros].
  apply advances_bind; [|intros; apply advances_ret].
  eapply advances_weaken; [apply advances_await | lia].
Qed.

Lemma connect_once_advances host port handler : advances (connect_once host port handler) 1.
Proof.
  apply advances_bind; [|intros; apply advances_ret].
  apply advances_try_except.
  - apply advances_bind; [apply advances_await | intros].
    apply advances_bind; [apply advances_lift | intros]. apply serve_connection_advances.
  - intros e h. destruct e; cbn; intros [= <-]; apply retry_later_advances.
Qed.

Lemma connect_once_no_break host port handler script w script' w' :
  connect_once host port handler script w ≠ (Some (Ok Break), script', w').
Proof.
  unfold connect_once, mbind, task_bind.
  destruct (task_try_except _ _ script w) as [[[[[]|e]|] s1] w1]; done.
Qed.

Lemma receive_start host port handler script w :
  receive_from_tcp_socket host port handler script w
  = while_true (connect_once host port handler) script
      (logged INFO (Connecting host port) w).
Proof. reflexivity. Qed.

Lemma receive_never_returns host port handler script w :
  (receive_from_tcp_socket host port handler script w).1.1 ≠ Some (Ok tt).
Proof.
  rewrite receive_start. apply while_fuel_no_break. intros. apply connect_once_no_break.
Qed.

(** A connection attempt that raises an [Exception] is logged at error
    level and followed by a delay of 5; then the loop starts over. *)
Lemma connect_failed host port handler e d rest w :
  is_Exception e = true →
  while_true (connect_once host port handler) (Fail e :: Done d :: rest) w
  = while_true (connect_once host port handler) rest (retried host port e w).
Proof.
  intros He. rewrite while_true_unfold by apply connect_once_advances.
  unfold connect_once. run_task. by destruct e.
Qed.

Lemma refused_again host port handler n rest w :
  while_true (connect_once host port handler) (refusals n ++ rest) w
  = while_true (connect_once host port handler) rest
      (Nat.iter n (retried host port ConnectionRefusedError) w).
Proof.
  revert w. induction n as [|n IH]; intros w; [done|].
  change (refusals (S n) ++ rest)
    with (Fail ConnectionRefusedError :: Done [] :: refusals n ++ rest).
  rewrite connect_failed by done. rewrite IH. by rewrite Nat.iter_succ_r.
Qed.

Lemma connect_once_dropped host port handler e d1 d2 d3 rest w :
  is_Exception e = true →
  connect_once host port handler (Done d1 :: Fail e :: Done d2 :: Done d3 :: rest) w
  = (Some (Ok Continue), rest, dropped host port e w).
Proof. by destruct e. Qed.

(** An open connection whose read raises an [Exception] is closed; the
    error is logged at error level and followed by a delay of 5; then the
    loop starts over. *)
Lemma connection_failed host port handler e d1 d2 d3 rest w :
  is_Exception e = true →
  while_true (connect_once host port handler) (Done d1 :: Fail e :: Done d2 :: Done d3 :: rest) w
  = while_true (connect_once host port handler) rest (dropped host port e w).
Proof.
  intros He. rewrite while_true_unfold by apply connect_once_advances.
  unfold iterate. by rewrite connect_once_dropped.
Qed.

(** C6. The client never returns normally; a connection attempt that is
    refused, or fails with any other Exception, and an open connection
    that fails with an Exception, are logged at error level and retried from
    the start after a delay of 5; there is no bound on the retries: after n
    refusals the client is making attempt n + 1. *)
Theorem receive_retries_forever host port handler :
  (∀ script w,
     (receive_from_tcp_socket host port handler script w).1.1 ≠ Some (Ok tt))
  ∧ (∀ e d rest w,
       is_Exception e = true →
       receive_from_tcp_socket host port handler (Fail e :: Done d :: rest) w
       = while_true (connect_once host port handler) rest
           (retried host port e (logged INFO (Connecting host port) w)))
  ∧ (∀ e d1 d2 d3 rest w,
       is_Exception e = true →
       receive_from_tcp_socket host port handler
         (Done d1 :: Fail e :: Done d2 :: Done d3 :: rest) w
       = while_true (connect_once host port handler) rest
           (dropped host port e (logged INFO (Connecting host port) w)))
  ∧ (∀ n w,
       receive_from_tcp_socket host port handler (refusals n) w
       = (None, [],
          acted [Open_connection host port]
            (Nat.iter n (retried host port ConnectionRefusedError)
               (logged INFO (Connecting host port) w)))).
Proof.
  split; [apply receive_never_returns|]. split; [|split].
  - intros e d rest w He. rewrite receive_start. by apply connect_failed.
  - intros e d1 d2 d3 rest w He. rewrite receive_start. by apply connection_failed.
  - intros n w. rewrite receive_start.
    rewrite <- (app_nil_r (refusals n)), refused_again. done.
Qed.

(** A line that is not UTF-8, and a line whose document nests too deep,
    end the connection they were read from. *)
Lemma connect_once_undecodable host port handler (line : list byte) d1 d2 d3 rest w :
  line ≠ [] → utf8_decode line = None →
  connect_once host port handler (Done d1 :: Done line :: Done d2 :: Done d3 :: rest) w
  = (Some (Ok Continue), rest, dropped host port UnicodeDecodeError w).
Proof.
  intros Hline Hdec.
  unfold connect_once, serve_connection, while_true, read_line, decode. run_task.
  destruct line as [|x line]; [done|]. rewrite Hdec. done.
Qed.

Lemma connect_once_too_deep host port handler (line : list byte) (text : list N)
    d1 d2 d3 rest w :
  line ≠ [] → utf8_decode line = Some text → str_strip text ≠ [] →
  json_loads (str_strip text) = Too_deep →
  connect_once host port handler (Done d1 :: Done line :: Done d2 :: Done d3 :: rest) w
  = (Some (Ok Continue), rest,
     dropped_on_line host port (str_strip text) RecursionError w).
Proof.
  intros Hline Hdec Hblank Hjson.
  unfold connect_once, serve_connection, while_true, read_line, decode, loads.
  run_task. destruct line as [|x line]; [done|]. rewrite Hdec. cbn.
  destruct (str_strip text) as [|c s] eqn:E; [done|]. cbn.
  unfold try_except. cbn. rewrite Hjson. done.
Qed.

(** C7, amended. A line that decodes to a non-blank text on which
    [json.loads] raises JSONDecodeError is logged at debug level, and the
    loop goes on to the next line: the iteration raises nothing and leaves
    the queue as it was. A line that is no valid JSON in another way is not
    skipped: one that is not UTF-8 raises UnicodeDecodeError before it is
    parsed, and one whose document nests too deep raises RecursionError in
    [json.loads]; either ends the reading, the connection is closed, the
    error is logged at error level and the client connects again after the
    delay, with the queue as it was. *)
Theorem non_json_line_skipped handler :
  (∀ (line : list byte) (text : list N) rest w,
     line ≠ [] → utf8_decode line = Some text → str_strip text ≠ [] →
     json_loads (str_strip text) = Not_JSON →
     let w' := logged DEBUG (Non_JSON (str_strip text))
                 (logged DEBUG (Raw (str_strip text)) (acted [Readline] w)) in
     read_line handler (Done line :: rest) w = (Some (Ok Continue), rest, w')
     ∧ while_true (read_line handler) (Done line :: rest) w
       = while_true (read_line handler) rest w'
     ∧ queue w' = queue w)
  ∧ (∀ host port (line : list byte) d1 d2 d3 rest w,
       line ≠ [] → utf8_decode line = None →
       read_line handler (Done line :: rest) w
       = (Some (Raise UnicodeDecodeError), rest, acted [Readline] w)
       ∧ while_true (connect_once host port handler)
           (Done d1 :: Done line :: Done d2 :: Done d3 :: rest) w
         = while_true (connect_once host port handler) rest
             (dropped host port UnicodeDecodeError w)
       ∧ queue (dropped host port UnicodeDecodeError w) = queue w)
  ∧ (∀ host port (line : list byte) (text : list N) d1 d2 d3 rest w,
       line ≠ [] → utf8_decode line = Some text → str_strip text ≠ [] →
       json_loads (str_strip text) = Too_deep →
       read_line handler (Done line :: rest) w
       = (Some (Raise RecursionError), rest,
          logged DEBUG (Raw (str_strip text)) (acted [Readline] w))
       ∧ while_true (connect_once host port handler)
           (Done d1 :: Done line :: Done d2 :: Done d3 :: rest) w
         = while_true (connect_once host port handler) rest
             (dropped_on_line host port (str_strip text) RecursionError w)
       ∧ queue (dropped_on_line host port (str_strip text) RecursionError w) = queue w).
Proof.
  split; [|split].
  - intros line text rest w Hline Hdec Hblank Hjson w'.
    assert (E : read_line handler (Done line :: rest) w = (Some (Ok Continue), rest, w')).
    { unfold read_line, decode, loads. run_task. destruct line as [|x line]; [done|].
      rewrite Hdec. cbn. destruct (str_strip text) as [|c s]; [done|]. cbn.
      unfold try_except. cbn. rewrite Hjson. done. }
    split; [done|]. split; [|done].
    rewrite while_true_unfold by apply read_line_advances.
    unfold iterate. by rewrite E.
  - intros host port line d1 d2 d3 rest w Hline Hdec. split; [|split; [|done]].
    + unfold read_line, decode. run_task. destruct line as [|x line]; [done|].
      by rewrite Hdec.
    + rewrite while_true_unfold by apply connect_once_advances. unfold iterate.
      by rewrite connect_once_undecodable.
  - intros host port line text d1 d2 d3 rest w Hline Hdec Hblank Hjson.
    split; [|split; [|done]].
    + unfold read_line, decode, loads. run_task. destruct line as [|x line]; [done|].
      rewrite Hdec. cbn. destruct (str_strip text) as [|c s]; [done|]. cbn.
      unfold try_except. cbn. by rewrite Hjson.
    + rewrite while_true_unfold by apply connect_once_advances. unfold iterate.
      by rewrite (connect_once_too_deep _ _ _ _ text).
Qed.

(** What one iteration of the inner loop does with a line that is a JSON
    document. *)
Lemma read_line_json handler (line : list byte) (text : list N) message rest w :
  line ≠ [] → utf8_decode line = Some text → str_strip text ≠ [] →
  json_loads (str_strip text) = Loaded message →
  read_line handler (Done line :: rest) w =
    match handle_socket_message message handler (py "dataMessage")
            (logged DEBUG (Raw (str_strip text)) (acted [Readline] w)) with
    | (Ok _, w') => (Some (Ok Continue), rest, w')
    | (Raise JSONDecodeError, w') =>
        (Some (Ok Continue), rest, logged DEBUG (Non_JSON (str_strip text)) w')
    | (Raise e, w') => (Some (Raise e), rest, w')
    end.
Proof.
  intros Hline Hdec Hblank Hjson.
  unfold read_line, decode, loads. run_task. destruct line as [|x line]; [done|].
  rewrite Hdec. cbn. destruct (str_strip text) as [|c s] eqn:E; [done|]. cbn.
  unfold try_except. cbn. rewrite Hjson. cbn.
  destruct (handle_socket_message _ _ _ _) as [[[]|e] w']; [done|]. by destruct e.
Qed.

(** X3. The end-to-end scenario: a line that carries a chat text
    "<lat> <lon> <label>" with coordinates in range, for which the encoder
    returns a buffer, appends exactly that buffer to the output queue. *)
Theorem chat_line_enqueues_marker
    (line : list byte) (text : list N) (message params envelope data : gmap (list N) json)
    (account source chat a b c : list N) (x y : float) (cot_bytes : list byte)
    (rest : list resp) (w : world) :
  line ≠ [] → utf8_decode line = Some text → str_strip text ≠ [] →
  json_loads (str_strip text) = Loaded (JDict message) →
  message !! py "method" = Some (JStr (py "receive")) →
  message !! py "params" = Some (JDict params) →
  params !! py "envelope" = Some (JDict envelope) →
  params !! py "account" = Some (JStr account) →
  envelope !! py "sourceNumber" = Some (JStr source) → source ≠ [] →
  envelope !! py "dataMessage" = Some (JDict data) →
  data !! py "message" = Some (JStr chat) →
  str_split 2 (str_strip chat) = [a; b; c] →
  float_of_str a = Some x → float_of_str b = Some y →
  lat_in_range x = true → lon_in_range y = true →
  pytak_gen_cot x y (py "Signal-Bot-" ++ uuid4 (uuid_draws w)) 50 9999999 0
    (py "a-u-" ++ category_code c) 120 = Some cot_bytes →
  cot_bytes ≠ [] →
  ∃ w', read_line (Some _cot_message_handler) (Done line :: rest) w
        = (Some (Ok Continue), rest, w') ∧
        queue w' = queue w ++ [cot_bytes].
Proof.
  intros Hline Hdec Hblank Hjson Hm Hp He Ha Hs Hne Hd Ht Hsplit Hx Hy Hlat Hlon Hgen Hb.
  assert (Hc : c ≠ []).
  { pose proof (split_nonempty 2 (str_strip chat)) as H. rewrite Hsplit in H.
    apply Forall_cons_1 in H as [_ H]. apply Forall_cons_1 in H as [_ H].
    by apply Forall_cons_1 in H as [H _]. }
  assert (Hchat : truthy (JStr chat) = true).
  { destruct chat; [|done]. by vm_compute in Hsplit. }
  rewrite (read_line_json _ _ _ _ _ _ Hline Hdec Hblank Hjson).
  rewrite (route_text _ _ _ _ _ _ _ _ _ Hm Hp He Ha Hs Hne Hd Ht Hchat). cbv zeta.
  rewrite handler_run, (from_string_tokens _ _ _ _ _ _ _ Hsplit Hx Hy).
  rewrite new_CoordinateMessage_ok by done.
  unfold gen_cot. rewrite cot_type_category.
  change (pytak_gen_cot _ _ _ _ _ _ _ _)
    with (pytak_gen_cot x y (py "Signal-Bot-" ++ uuid4 (uuid_draws w)) 50 9999999 0
            (py "a-u-" ++ category_code c) 120).
  rewrite Hgen. destruct cot_bytes as [|k cot_bytes]; [done|]. cbn. eauto.
Qed.

(** X4. A line that is not UTF-8 is no parse failure: the decode error ends the
    connection, which is closed, logged at error level and retried after
    the delay; the queue is as it was. *)
Theorem undecodable_line_drops_connection host port handler (line : list byte)
    d1 d2 d3 rest w :
  line ≠ [] → utf8_decode line = None →
  while_true (connect_once host port handler)
    (Done d1 :: Done line :: Done d2 :: Done d3 :: rest) w
  = while_true (connect_once host port handler) rest
      (dropped host port UnicodeDecodeError w)
  ∧ queue (dropped host port UnicodeDecodeError w) = queue w.
Proof.
  intros Hline Hdec. split; [|done].
  rewrite while_true_unfold by apply connect_once_advances. unfold iterate.
  assert (connect_once host port handler
            (Done d1 :: Done line :: Done d2 :: Done d3 :: rest) w
          = (Some (Ok Continue), rest, dropped host port UnicodeDecodeError w)) as ->; [|done].
  unfold connect_once, serve_connection, while_true, read_line, decode. run_task.
  destruct line as [|x line]; [done|]. rewrite Hdec. done.
Qed.

(** X5. At the end of the stream the client logs a warning, closes the
    connection and connects again at once, without a delay. *)
Theorem stream_end_reconnects host port handler d1 d2 rest w :
  while_true (connect_once host port handler) (Done d1 :: Done [] :: Done d2 :: rest) w
  = while_true (connect_once host port handler) rest (ended host port w).
Proof.
  rewrite while_true_unfold by apply connect_once_advances. done.
Qed.

End Client.

(** ** The process supervisor *)

Section Supervisor.

Context `{RT : Runtime}.

Implicit Types w : world.

Lemma cleaning_up_proc_run {A} cmd (body : task A) d script w :
  cleaning_up_proc cmd body (Done d :: script) w =
    match body script (started cmd w) with
    | (Some r, script1, w1) => after_cleanup r script1 w1
    | (None, script1, w1) => (None, script1, w1)
    end.
Proof.
  unfold cleaning_up_proc, run, process_terminate, process_wait, set_daemon. run_task.
  change (World (log w ++ [(INFO, Started_process cmd)]) (queue w) (uuid_draws w)
            (trace w ++ [Create_subprocess_shell cmd]) Running) with (started cmd w).
  destruct (body script (started cmd w)) as [[[r|] script1] w1]; [|done].
  by destruct script1 as [|[x|e] [|[y|e'] rest]].
Qed.

Lemma after_cleanup_inv {A} (r : result A) script1 w1 o script' w' :
  after_cleanup r script1 w1 = (Some o, script', w') →
  (∃ x y, script1 = Done x :: Done y :: script') ∧ o = r ∧
    trace w' = trace w1 ++ [Terminate; Wait] ∧ daemon w' = Exited
  ∨ (∃ x e, script1 = Done x :: Fail e :: script' ∧ o = Raise e) ∧
    trace w' = trace w1 ++ [Terminate; Wait] ∧ daemon w' = Terminating
  ∨ (∃ e, script1 = Fail e :: script' ∧ o = Raise e) ∧
    trace w' = trace w1 ++ [Terminate] ∧ daemon w' = daemon w1.
Proof.
  destruct script1 as [|[x|e] [|[y|e'] rest]]; cbn; try done; intros [= <- <- <-]; cbn;
    rewrite <- ?(assoc_L (++)); eauto 10.
Qed.

(** C8, amended. However the body of the scope ends (it returns, it is
    cancelled, it raises), the scope calls terminate() on the daemon before
    it does anything else. When terminate() returns, wait() is awaited next:
    when the wait returns the daemon has exited and the outcome of the body
    is passed on, and when the wait is interrupted by an exception the
    scope ends with that exception and the daemon signalled only. The
    bridge's run call, whose body never returns normally, ends only after
    this cleanup of a body that raised. *)
Theorem daemon_terminated_on_exit :
  (∀ A cmd (body : task A) d script w r script1 w1,
     body script (started cmd w) = (Some r, script1, w1) →
     cleaning_up_proc cmd body (Done d :: script) w = after_cleanup r script1 w1)
  ∧ (∀ A (r : result A) script1 w1,
       ∃ more, trace (after_cleanup r script1 w1).2 = trace w1 ++ Terminate :: more)
  ∧ (∀ A (r : result A) x script1 w1 o script' w',
       after_cleanup r (Done x :: script1) w1 = (Some o, script', w') →
       trace w' = trace w1 ++ [Terminate; Wait] ∧
       ((∃ y, script1 = Done y :: script') ∧ o = r ∧ daemon w' = Exited
        ∨ (∃ e, script1 = Fail e :: script' ∧ o = Raise e) ∧ daemon w' = Terminating))
  ∧ (∀ cmd host port d script w r script' w',
       run_incomming_message_processing cmd host port (Done d :: script) w
       = (Some r, script', w') →
       ∃ e script1 w1,
         receive_from_tcp_socket host port (Some _cot_message_handler) script (started cmd w)
         = (Some (Raise e), script1, w1) ∧
         after_cleanup (Raise e) script1 w1 = (Some r, script', w')).
Proof.
  split; [|split; [|split]].
  - intros A cmd body d script w r script1 w1 E. by rewrite cleaning_up_proc_run, E.
  - intros A r script1 w1.
    destruct script1 as [|[x|e] [|[y|e'] rest]]; cbn; rewrite <- ?(assoc_L (++)); eauto.
  - intros A r x script1 w1 o script' w' E.
    apply after_cleanup_inv in E
      as [((x' & y & [= _ ->]) & -> & Ht & Hd)
         |[((x' & e & [= _ ->] & ->) & Ht & Hd) | ((e & [=] & _) & _)]]; eauto 8.
  - intros cmd host port d script w r script' w'.
    unfold run_incomming_message_processing. rewrite cleaning_up_proc_run.
    pose proof (receive_never_returns host port (Some _cot_message_handler) script
                  (started cmd w)) as Hnever.
    destruct (receive_from_tcp_socket _ _ _ script (started cmd w))
      as [[[[[]|e]|] script1] w1]; [done| |done].
    intros E. eauto.
Qed.

End Supervisor.

(** ** Every document through the router *)

(** Runs the router on what is known of the message. *)
Ltac eval_router :=
  let h := fresh "hanlder" in
  intros h; unfold handle_socket_message, dict_get, py_in, slice_to; run_M;
  repeat (match goal with
          | H : ?x = _ |- context [?x] => rewrite H
          end; cbn);
  rewrite ?lookup_empty; cbn;
  first [reflexivity | destruct h; reflexivity].

Ltac dropped_by_router :=
  left; eexists _, _; split; [eval_router|];
  split; [first [left; reflexivity | right; eexists; reflexivity]|];
  first [exact I | by left | by right; left | by right; right].

Ltac handed_by_router :=
  right; eexists _, _, _, _, _, _, _;
  split; [reflexivity|]; do 6 (split; [eassumption|]); eval_router.

(** The router on any document: what it does without the handler, and when it
    hands a text over. *)
Lemma router_cases message fp w :
  (∃ r w', (∀ hanlder, handle_socket_message message hanlder fp w = (r, w')) ∧
           (w' = w ∨ ∃ m, w' = logged DEBUG m w) ∧
           match r with
           | Ok _ => True
           | Raise e => e = TypeError ∨ e = AttributeError ∨ e = KeyError
           end)
  ∨ (∃ d params envelope data text account7 source10,
        message = JDict d ∧
        d !! py "method" = Some (JStr (py "receive")) ∧
        d !! py "params" = Some (JDict params) ∧
        params !! py "envelope" = Some (JDict envelope) ∧
        envelope !! py "dataMessage" = Some (JDict data) ∧
        data !! py "message" = Some text ∧ truthy text = true ∧
        ∀ hanlder, handle_socket_message message hanlder fp w =
          let w' := logged INFO (Message_from account7 source10 text) w in
          match hanlder with
          | Some handler => handler text w'
          | None => (Ok tt, w')
          end).
Proof.
  destruct message as [| | | | |l|d]; try dropped_by_router.
  destruct (d !! py "method") as [method|] eqn:Hmethod; [|dropped_by_router].
  destruct method as [| | | |s| |]; try dropped_by_router.
  destruct (bool_decide (s = py "receive")) eqn:Hs; [|dropped_by_router].
  apply bool_decide_eq_true in Hs as ->.
  assert (Hreceive : bool_decide (py "receive" = py "receive") = true)
    by by apply bool_decide_eq_true.
  destruct (d !! py "params") as [params|] eqn:Hparams; [|dropped_by_router].
  destruct params as [| | | | | |p]; try dropped_by_router.
  destruct (p !! py "envelope") as [envelope|] eqn:Henvelope; [|dropped_by_router].
  destruct envelope as [| | | |s|l|e]; try dropped_by_router.
  { destruct (is_substring fp s) eqn:Hin; dropped_by_router. }
  { destruct (existsb (λ x, eq_str x fp) l) eqn:Hin; dropped_by_router. }
  destruct (bool_decide (is_Some (e !! fp))) eqn:Hin; [|dropped_by_router].
  destruct (e !! py "dataMessage") as [data|] eqn:Hdata; last first.
  { destruct (e !! py "sourceNumber") as [sn|] eqn:Hsn;
      [destruct (truthy sn) eqn:Htsn|]; dropped_by_router. }
  destruct data as [| | | | | |data];
    try (destruct (e !! py "sourceNumber") as [sn|] eqn:Hsn;
           [destruct (truthy sn) eqn:Htsn|]; dropped_by_router).
  destruct (data !! py "message") as [text|] eqn:Htext; last first.
  { destruct (e !! py "sourceNumber") as [sn|] eqn:Hsn;
      [destruct (truthy sn) eqn:Htsn|]; dropped_by_router. }
  destruct (truthy text) eqn:Htrue; last first.
  { destruct (e !! py "sourceNumber") as [sn|] eqn:Hsn;
      [destruct (truthy sn) eqn:Htsn|]; dropped_by_router. }
  destruct (p !! py "account") as [account|] eqn:Haccount; last first.
  { destruct (e !! py "sourceNumber") as [sn|] eqn:Hsn;
      [destruct (truthy sn) eqn:Htsn|]; dropped_by_router. }
  destruct account;
    try (destruct (e !! py "sourceNumber") as [sn|] eqn:Hsn;
           [destruct (truthy sn) eqn:Htsn|]; dropped_by_router).
  all: destruct (e !! py "sourceNumber") as [sn|] eqn:Hsn;
    [destruct (truthy sn) eqn:Htsn;
       [destruct sn; cbn in Htsn; try discriminate Htsn; try dropped_by_router;
        handed_by_router|]|].
  all: destruct (e !! py "source") as [src|] eqn:Hsrc; [|dropped_by_router].
  all: destruct src; try dropped_by_router; handed_by_router.
Qed.

(** X7. Whatever the document, the router either drops it without calling
    the handler (it then writes at most one debug record, and what it
    raises is a TypeError, AttributeError or KeyError of its own lookups),
    or writes one info record and ends with one call of the handler, on a
    truthy text. *)
Theorem router_outcomes message handler fp w :
  (∃ r w',
     handle_socket_message message (Some handler) fp w = (r, w') ∧
     handle_socket_message message None fp w = (r, w') ∧
     (w' = w ∨ ∃ m, w' = logged DEBUG m w) ∧
     match r with
     | Ok _ => True
     | Raise e => e = TypeError ∨ e = AttributeError ∨ e = KeyError
     end)
  ∨ (∃ text m,
       truthy text = true ∧
       handle_socket_message message None fp w = (Ok tt, logged INFO m w) ∧
       handle_socket_message message (Some handler) fp w = handler text (logged INFO m w)).
Proof.
  destruct (router_cases message fp w)
    as [(r & w1 & Hr & Hw & He)
       | (d & p & en & data & text & a7 & s10 & _ & _ & _ & _ & _ & _ & Ht & Hr)].
  - left. exists r, w1. by rewrite !Hr.
  - right. exists text, (Message_from a7 s10 text). by rewrite !Hr.
Qed.

(** ** The coordinates of an event *)

Lemma SFcompare_refl s m e : SFcompare (S754_finite s m e) (S754_finite s m e) = Some Eq.
Proof. cbn. rewrite Z.compare_refl, Pos.compare_cont_refl. by destruct s. Qed.

(** A float between two bounds that are not infinite is a number, and a
    finite one. *)
Lemma between_finite (lo hi x : float) :
  PrimFloat.is_infinity lo = false → PrimFloat.is_infinity hi = false →
  PrimFloat.leb lo x && PrimFloat.leb x hi = true →
  PrimFloat.is_nan x = false ∧ PrimFloat.is_infinity x = false.
Proof.
  unfold PrimFloat.is_nan, PrimFloat.is_infinity.
  rewrite !FloatAxioms.eqb_spec, !FloatAxioms.leb_spec, !FloatAxioms.abs_spec.
  replace (Prim2SF infinity) with (S754_infinity false) by reflexivity.
  intros Hlo Hhi [H1 H2]%andb_true_iff. revert Hlo Hhi H1 H2.
  unfold SFeqb, SFleb.
  destruct (Prim2SF lo) as [| [] | |? ? ?], (Prim2SF hi) as [| [] | |? ? ?],
    (Prim2SF x) as [|[]| |? ? ?]; try done; intros _ _ _ _;
    cbn [SFabs]; rewrite ?SFcompare_refl; done.
Qed.

Section Coordinates.

Context `{RT : Runtime}.

(** [from_string] changes nothing but the count of the uuid draws. *)
Lemma from_string_world text w r w' :
  from_string text w = (r, w') → w' = w ∨ w' = drawn w.
Proof.
  destruct (decide (length (str_split 2 (str_strip text)) = 3)) as [Hlen|Hlen].
  - destruct (str_split 2 (str_strip text)) as [|a [|b [|c [|]]]] eqn:E; try done.
    destruct (float_of_str a) as [x|] eqn:Ha; last first.
    { rewrite (from_string_not_floats _ _ _ _ _ E) by auto. intros [= <- <-]. by left. }
    destruct (float_of_str b) as [y|] eqn:Hb; last first.
    { rewrite (from_string_not_floats _ _ _ _ _ E) by auto. intros [= <- <-]. by left. }
    rewrite (from_string_tokens _ _ _ _ _ _ _ E Ha Hb).
    unfold new_CoordinateMessage, __post_init__. run_M.
    destruct (negb (lat_in_range x)); [intros [= <- <-]; by right|].
    destruct (negb (lon_in_range y)); [intros [= <- <-]; by right|].
    destruct c; intros [= <- <-]; by right.
  - rewrite from_string_not_three by done. intros [= <- <-]. by left.
Qed.

(** X8. The coordinates of an event that was built are numbers in range:
    [float] reads "nan" and "inf" as floats, and the range checks turn
    them down. *)
Theorem from_string_coordinates_finite text w m w' :
  from_string text w = (Ok m, w') →
  PrimFloat.is_nan (lat m) = false ∧ PrimFloat.is_infinity (lat m) = false ∧
  PrimFloat.is_nan (lon m) = false ∧ PrimFloat.is_infinity (lon m) = false.
Proof.
  intros (a & b & _ & _ & _ & Hlat & Hlon & _)%from_string_inv.
  apply between_finite in Hlat as [? ?]; [|done..].
  apply between_finite in Hlon as [? ?]; done.
Qed.

End Coordinates.

(** ** Where the exceptions of a run come from *)

Section Fair.

Context {A B : Type}.
Implicit Types P Q : exn → Prop.

Lemma fair_mono P Q (t : task A) : (∀ e, P e → Q e) → fair P t → fair Q t.
Proof.
  intros HPQ Ht script w o script' w' E. destruct (Ht _ _ _ _ _ E) as (used & -> & H).
  exists used. split; [done|]. destruct o as [[a|e]|]; [done| |done].
  destruct H; auto.
Qed.

Lemma fair_ret P (a : A) : fair P (mret a).
Proof. intros script w o script' w' [= <- <- <-]. by exists []. Qed.

Lemma fair_lift P (m : M A) :
  (∀ w e w', m w = (Raise e, w') → P e) → fair P (lift m).
Proof.
  intros Hm script w o script' w'. unfold lift. destruct (m w) as [r w1] eqn:E.
  intros [= <- <- <-]. exists []. split; [done|]. destruct r as [a|e]; [done|].
  left. eauto.
Qed.

Lemma fair_bind P (t : task A) (f : A → task B) :
  fair P t → (∀ a, fair P (f a)) → fair P (t ≫= f).
Proof.
  intros Ht Hf script w o script' w'. unfold mbind, task_bind.
  destruct (t script w) as [[[[a|e]|] s1] w1] eqn:E;
    destruct (Ht _ _ _ _ _ E) as (used & -> & H).
  - intros E'. destruct (Hf _ _ _ _ _ _ E') as (used' & -> & H').
    exists (used ++ used'). split; [by rewrite (assoc_L (++))|].
    destruct o as [[b|e]|]; [done| |done]. destruct H' as [|H']; [by left|].
    right. apply elem_of_app. by right.
  - intros [= <- <- <-]. by exists used.
  - intros [= <- <- <-]. by exists used.
Qed.

Lemma fair_try_except P Q (body : task A) handler :
  fair P body →
  (∀ e h, handler e = Some h → fair Q h) →
  (∀ e, P e → handler e = None → Q e) →
  fair Q (task_try_except body handler).
Proof.
  intros Hb Hh HPQ script w o script' w'. unfold task_try_except.
  destruct (body script w) as [[[[a|e]|] s1] w1] eqn:E;
    destruct (Hb _ _ _ _ _ E) as (used & -> & H).
  - intros [= <- <- <-]. by exists used.
  - destruct (handler e) as [h|] eqn:Eh.
    + intros E'. destruct (Hh _ _ Eh _ _ _ _ _ E') as (used' & -> & H').
      exists (used ++ used'). split; [by rewrite (assoc_L (++))|].
      destruct o as [[b|e']|]; [done| |done]. destruct H' as [|H']; [by left|].
      right. apply elem_of_app. by right.
    + intros [= <- <- <-]. exists used. split; [done|].
      destruct H as [H|H]; [left; by apply HPQ | by right].
  - intros [= <- <- <-]. by exists used.
Qed.

Lemma fair_try_finally P (body : task A) final :
  fair P body → fair P final → fair P (task_try_finally body final).
Proof.
  intros Hb Hf script w o script' w'. unfold task_try_finally.
  destruct (body script w) as [[[r|] s1] w1] eqn:E;
    destruct (Hb _ _ _ _ _ E) as (used & -> & H); last first.
  { intros [= <- <- <-]. by exists used. }
  destruct (final s1 w1) as [[[[[]|e]|] s2] w2] eqn:E';
    destruct (Hf _ _ _ _ _ E') as (used' & -> & H'); intros [= <- <- <-];
    exists (used ++ used'); (split; [by rewrite (assoc_L (++))|]).
  - destruct r as [a|e]; [done|]. destruct H as [|H]; [by left|].
    right. apply elem_of_app. by left.
  - destruct H' as [|H']; [by left|]. right. apply elem_of_app. by right.
  - done.
Qed.

End Fair.

Lemma fair_await P a : fair P (await a).
Proof.
  intros script w o script' w'. unfold await. cbn.
  destruct script as [|[d|e] rest]; intros [= <- <- <-].
  - by exists [].
  - by exists [Done d].
  - exists [Fail e]. split; [done|]. right. apply elem_of_cons. by left.
Qed.

Lemma fair_while_true P body :
  advances body 1 → fair P body → fair P (while_true body).
Proof.
  intros Hadv Hb script. remember (length script) as n eqn:Hn.
  revert script Hn. induction (lt_wf n) as [n _ IH]. intros script -> w o script' w'.
  rewrite while_true_unfold by done. unfold iterate.
  destruct (body script w) as [[[[[]|e]|] s1] w1] eqn:E;
    destruct (Hb _ _ _ _ _ E) as (used & Hs & H).
  - intros E'. apply Hadv in E as Hlen.
    destruct (IH (length s1) ltac:(lia) s1 eq_refl _ _ _ _ E') as (used' & -> & H').
    exists (used ++ used'). split; [by rewrite Hs, (assoc_L (++))|].
    destruct o as [[b|e']|]; [done| |done]. destruct H' as [|H']; [by left|].
    right. apply elem_of_app. by right.
  - intros [= <- <- <-]. by exists used.
  - intros [= <- <- <-]. by exists used.
  - intros [= <- <- <-]. by exists used.
Qed.

Lemma logger_never_raises l m w e w' : logger l m w = (Raise e, w') → False.
Proof. done. Qed.

Lemma act_never_raises a w e w' : act a w = (Raise e, w') → False.
Proof. done. Qed.

Lemma set_daemon_never_raises p w e w' : set_daemon p w = (Raise e, w') → False.
Proof. done. Qed.

Ltac fair_quiet :=
  apply fair_lift; intros ? ? ? E;
  first [ by destruct (logger_never_raises _ _ _ _ _ E)
        | by destruct (act_never_raises _ _ _ _ E)
        | by destruct (set_daemon_never_raises _ _ _ _ E) ].

Section Origin.

Context `{RT : Runtime}.

Implicit Types w : world.
Implicit Types handler : option (json → M unit).

Lemma cot_handler_raises v w e w' :
  _cot_message_handler v w = (Raise e, w') → e = AttributeError.
Proof.
  destruct v as [| | | |text| |]; try by intros [= <- <-].
  rewrite handler_run. destruct (from_string text w) as [[m|e'] w1]; [|done].
  by destruct (gen_cot m 0 120 50 9999999) as [[|x b]|].
Qed.

Lemma cot_handler_raises_exceptions : raises_exceptions (Some _cot_message_handler).
Proof. intros h v w e w' [= <-] ->%cot_handler_raises. done. Qed.

Lemma router_raises handler message fp w e w' :
  raises_exceptions handler →
  handle_socket_message message handler fp w = (Raise e, w') → is_Exception e = true.
Proof.
  intros Hh. destruct (router_cases message fp w)
    as [(r & w1 & Hr & _ & He) | (d & p & en & data & text & a7 & s10 & _ & _ & _ & _ & _ & _ & _ & Hr)];
    rewrite Hr.
  - intros [= -> <-]. by destruct He as [->|[->| ->]].
  - cbv zeta. destruct handler as [h|]; [|done]. by apply Hh.
Qed.

Lemma read_line_fair handler :
  raises_exceptions handler → fair (λ e, is_Exception e = true) (read_line handler).
Proof.
  intros Hh. unfold read_line. apply fair_bind; [apply fair_await|]. intros [|x line].
  - apply fair_bind; [fair_quiet | intros; apply fair_ret].
  - apply fair_bind.
    { apply fair_lift. intros w e w'. unfold decode.
      destruct (utf8_decode (x :: line)); [done|]. by intros [= <- _]. }
    intros decoded. destruct (str_strip decoded) as [|c s]; [apply fair_ret|].
    apply fair_bind; [fair_quiet|]. intros _.
    apply fair_bind; [|intros; apply fair_ret].
    apply fair_lift. intros w e w'. unfold try_except, loads, mbind, M_bind.
    destruct (json_loads (c :: s)) as [message| |]; cbn; [|done|by intros [= <- _]].
    destruct (handle_socket_message message handler (py "dataMessage") w)
      as [[[]|e'] w1] eqn:E; [done|].
    apply (router_raises _ _ _ _ _ _ Hh) in E. destruct e'; try done; by intros [= <- _].
Qed.

Lemma close_fair P : fair P (lift (act Writer_close);; await Wait_closed;; mret tt).
Proof.
  apply fair_bind; [fair_quiet | intros].
  apply fair_bind; [apply fair_await | intros; apply fair_ret].
Qed.

Lemma serve_connection_fair handler :
  raises_exceptions handler → fair (λ e, is_Exception e = true) (serve_connection handler).
Proof.
  intros Hh. apply fair_try_finally; [|apply close_fair].
  apply fair_while_true; [apply read_line_advances | by apply read_line_fair].
Qed.

Lemma retry_later_fair P m : fair P (retry_later m).
Proof.
  apply fair_bind; [fair_quiet | intros].
  apply fair_bind; [apply fair_await | intros; apply fair_ret].
Qed.

Lemma connect_once_fair host port handler :
  raises_exceptions handler → fair (λ _, False) (connect_once host port handler).
Proof.
  intros Hh. apply fair_bind; [|intros; apply fair_ret].
  apply (fair_try_except (λ e, is_Exception e = true)).
  - apply fair_bind; [apply fair_await | intros].
    apply fair_bind; [fair_quiet | intros]. by apply serve_connection_fair.
  - intros e h. destruct e; cbn; intros [= <-]; apply retry_later_fair.
  - intros e He. by destruct e.
Qed.

Lemma receive_fair host port handler :
  raises_exceptions handler → fair (λ _, False) (receive_from_tcp_socket host port handler).
Proof.
  intros Hh. apply fair_bind; [fair_quiet | intros].
  apply fair_while_true; [apply connect_once_advances | by apply connect_once_fair].
Qed.

Lemma not_delivered (script used script' : list resp) e :
  only_done script → script = used ++ script' → Fail e ∈ used → False.
Proof.
  intros Hd -> Hin. apply Forall_app in Hd as [Hd _].
  rewrite Forall_forall in Hd. by apply Hd in Hin.
Qed.

(** X9. The client ends only by raising an exception that the environment
    delivered at one of its awaits: the errors of decoding, of parsing, of
    the router and of the handler never leave it. It uses its responses in
    order, and with responses that all succeed it uses them all up and is
    still running. *)
Theorem client_stops_only_on_delivered_exception host port handler script w o script' w' :
  raises_exceptions handler →
  receive_from_tcp_socket host port handler script w = (o, script', w') →
  (∃ used, script = used ++ script' ∧
     match o with
     | Some (Ok _) => False
     | Some (Raise e) => Fail e ∈ used
     | None => script' = []
     end)
  ∧ (only_done script → o = None ∧ script' = []).
Proof.
  intros Hh E. pose proof (receive_never_returns host port handler script w) as Hnever.
  destruct (receive_fair host port handler Hh _ _ _ _ _ E) as (used & Hs & H).
  rewrite E in Hnever. cbn in Hnever.
  assert (Hmain : match o with
                  | Some (Ok _) => False
                  | Some (Raise e) => Fail e ∈ used
                  | None => script' = []
                  end).
  { destruct o as [[[]|e]|]; [done| |done]. by destruct H. }
  split; [by exists used|].
  intros Hd. destruct o as [[[]|e]|]; [done| |done].
  destruct (not_delivered _ _ _ _ Hd Hs Hmain).
Qed.

Lemma run_fair P cmd : fair P (run cmd).
Proof.
  apply fair_bind; [apply fair_await | intros].
  apply fair_bind; [fair_quiet | intros]. fair_quiet.
Qed.

Lemma process_terminate_fair P : fair P process_terminate.
Proof. apply fair_bind; [apply fair_await | intros; fair_quiet]. Qed.

Lemma cleaning_up_proc_fair {A} P cmd (body : task A) :
  fair P body → fair P (cleaning_up_proc cmd body).
Proof.
  intros Hb. apply fair_bind; [apply run_fair | intros].
  apply fair_try_finally; [done|].
  apply fair_bind; [apply process_terminate_fair | intros].
  apply fair_bind; [apply fair_await | intros; fair_quiet].
Qed.

Lemma bridge_never_returns cmd host port script w :
  (run_incomming_message_processing cmd host port script w).1.1 ≠ Some (Ok tt).
Proof.
  destruct script as [|[d|e] script]; [done| |done].
  unfold run_incomming_message_processing. rewrite cleaning_up_proc_run.
  pose proof (receive_never_returns host port (Some _cot_message_handler) script
                (started cmd w)) as Hnever.
  destruct (receive_from_tcp_socket _ _ _ script (started cmd w))
    as [[[[[]|e]|] script1] w1]; [done| |done].
  by destruct script1 as [|[x|e'] [|[y|e''] rest]].
Qed.

(** X10. The bridge ends only by raising an exception that the environment
    delivered at one of its calls out: at an await (of the spawn, a
    connection attempt, a read, a close, a delay, the wait for the daemon)
    or at the call of terminate(), which raises when the daemon has exited
    already. As long as every call succeeds it goes on, using the responses
    in order. *)
Theorem bridge_stops_only_on_delivered_exception cmd host port script w o script' w' :
  run_incomming_message_processing cmd host port script w = (o, script', w') →
  (∃ used, script = used ++ script' ∧
     match o with
     | Some (Ok _) => False
     | Some (Raise e) => Fail e ∈ used
     | None => script' = []
     end)
  ∧ (only_done script → o = None ∧ script' = []).
Proof.
  intros E. pose proof (bridge_never_returns cmd host port script w) as Hnever.
  assert (Hfair : fair (λ _, False) (run_incomming_message_processing cmd host port)).
  { apply cleaning_up_proc_fair, receive_fair, cot_handler_raises_exceptions. }
  destruct (Hfair _ _ _ _ _ E) as (used & Hs & H).
  rewrite E in Hnever. cbn in Hnever.
  assert (Hmain : match o with
                  | Some (Ok _) => False
                  | Some (Raise e) => Fail e ∈ used
                  | None => script' = []
                  end).
  { destruct o as [[[]|e]|]; [done| |done]. by destruct H. }
  split; [by exists used|].
  intros Hd. destruct o as [[[]|e]|]; [done| |done].
  destruct (not_delivered _ _ _ _ Hd Hs Hmain).
Qed.

End Origin.

(** ** What every run keeps *)

Section Keeps.

Context {A B : Type}.
Context (R : bool → list resp * world → list resp * world → Prop).

Lemma keeps_ret (a : A) : stepwise R → keeps R (mret a).
Proof. intros HR script w o script' w' [= <- <- <-]. apply HR. Qed.

Lemma keeps_lift (m : M A) :
  (∀ script w, R true (script, w) (script, (m w).2)) → keeps R (lift m).
Proof.
  intros Hm script w o script' w'. unfold lift. specialize (Hm script w).
  destruct (m w) as [r w1]. intros [= <- <- <-]. done.
Qed.

Lemma keeps_bind (t : task A) (f : A → task B) :
  stepwise R → keeps R t → (∀ a, keeps R (f a)) → keeps R (t ≫= f).
Proof.
  intros HR Ht Hf script w o script' w'. unfold mbind, task_bind.
  destruct (t script w) as [[[[a|e]|] s1] w1] eqn:E; apply Ht in E.
  - intros E'. apply Hf in E'. by eapply stepwise_trans.
  - by intros [= <- <- <-].
  - by intros [= <- <- <-].
Qed.

Lemma keeps_try_except (body : task A) handler :
  stepwise R → keeps R body → (∀ e h, handler e = Some h → keeps R h) →
  keeps R (task_try_except body handler).
Proof.
  intros HR Hb Hh script w o script' w'. unfold task_try_except.
  destruct (body script w) as [[[[a|e]|] s1] w1] eqn:E; apply Hb in E.
  - by intros [= <- <- <-].
  - destruct (handler e) as [h|] eqn:Eh.
    + intros E'. apply (Hh _ _ Eh) in E'. by eapply stepwise_trans.
    + by intros [= <- <- <-].
  - by intros [= <- <- <-].
Qed.

Lemma keeps_try_finally (body : task A) final :
  stepwise R → keeps R body → keeps R final → keeps R (task_try_finally body final).
Proof.
  intros HR Hb Hf script w o script' w'. unfold task_try_finally.
  destruct (body script w) as [[[r|] s1] w1] eqn:E; apply Hb in E; last first.
  { by intros [= <- <- <-]. }
  destruct (final s1 w1) as [[[[[]|e]|] s2] w2] eqn:E'; apply Hf in E';
    intros [= <- <- <-]; by eapply stepwise_trans.
Qed.

End Keeps.

Lemma keeps_while_fuel R n body : stepwise R → keeps R body → keeps R (while_fuel n body).
Proof.
  intros HR Hb. induction n as [|n IH]; intros script w o script' w'; cbn.
  - intros [= <- <- <-]. apply HR.
  - destruct (body script w) as [[[[[]|e]|] s1] w1] eqn:E; apply Hb in E.
    + intros E'. apply IH in E'. by eapply stepwise_trans.
    + by intros [= <- <- <-].
    + by intros [= <- <- <-].
    + by intros [= <- <- <-].
Qed.

Lemma keeps_while_true R body : stepwise R → keeps R body → keeps R (while_true body).
Proof. intros HR Hb script w. by apply keeps_while_fuel. Qed.

Lemma queue_grows_same b script script' w w' :
  queue w' = queue w → length script' ≤ length script →
  queue_grows b (script, w) (script', w').
Proof. intros Hq Hs. exists []. cbn. by rewrite Hq, app_nil_r. Qed.

Lemma queue_grows_stepwise : stepwise queue_grows.
Proof.
  split.
  - intros b [s w]. by apply queue_grows_same.
  - intros b [s1 w1] [s2 w2] [s3 w3] (i1 & Hq1 & Hi1 & Hl1) (i2 & Hq2 & Hi2 & Hl2).
    cbn in *. exists (i1 ++ i2). cbn. rewrite Hq2, Hq1, (assoc_L (++)), length_app.
    split; [done|]. split; [by apply Forall_app|lia].
Qed.

Lemma keeps_await_queue a : keeps queue_grows (await a).
Proof.
  intros script w o script' w'. unfold await. cbn.
  destruct script as [|[d|e] rest]; intros [= <- <- <-];
    apply queue_grows_same; cbn; first [done | lia].
Qed.

Ltac keeps_quiet :=
  apply keeps_lift; intros; apply queue_grows_same; cbn; first [done | lia].

Section Queue.

Context `{RT : Runtime}.

Lemma cot_handler_queue v w r w' :
  _cot_message_handler v w = (r, w') →
  queue w' = queue w ∨ ∃ item, item ≠ [] ∧ queue w' = queue w ++ [item].
Proof.
  destruct v as [| | | |text| |]; try (intros [= <- <-]; by left).
  rewrite handler_run. destruct (from_string text w) as [[m|e] w1] eqn:E;
    apply from_string_inv in E.
  - destruct E as (_ & _ & _ & _ & _ & _ & _ & _ & _ & _ & ->).
    destruct (gen_cot m 0 120 50 9999999) as [[|x b]|]; intros [= <- <-]; cbn;
      first [by left | right; by exists (x :: b)].
  - destruct E as (why & -> & _ & Hq & _). intros [= <- <-]. cbn. by left.
Qed.

Lemma router_queue message fp w r w' :
  handle_socket_message message (Some _cot_message_handler) fp w = (r, w') →
  queue w' = queue w ∨ ∃ item, item ≠ [] ∧ queue w' = queue w ++ [item].
Proof.
  destruct (router_cases message fp w)
    as [(r1 & w1 & Hr & Hw & _) | (d & p & en & data & text & a7 & s10 & _ & _ & _ & _ & _ & _ & _ & Hr)];
    rewrite Hr.
  - intros [= <- <-]. left. by destruct Hw as [->|[m ->]].
  - cbv zeta. intros E. by apply cot_handler_queue in E.
Qed.

Lemma read_line_queue : keeps queue_grows (read_line (Some _cot_message_handler)).
Proof.
  intros script w o script' w'. unfold read_line, mbind at 1, task_bind at 1, await.
  cbn [act fst snd]. destruct script as [|[line|e] rest]; [| |].
  - intros [= <- <- <-]. by apply queue_grows_same.
  - destruct line as [|x line].
    { intros [= <- <- <-]. apply queue_grows_same; cbn; first [done | lia]. }
    unfold mbind at 1, task_bind at 1, lift at 1, decode.
    destruct (utf8_decode (x :: line)) as [decoded|]; cbn [mret M_ret raise]; last first.
    { intros [= <- <- <-]. apply queue_grows_same; cbn; first [done | lia]. }
    destruct (str_strip decoded) as [|c s].
    { intros [= <- <- <-]. apply queue_grows_same; cbn; first [done | lia]. }
    unfold mbind, task_bind, lift, logger, try_except, loads, M_bind. cbn.
    destruct (json_loads (c :: s)) as [message| |]; cbn.
    + destruct (handle_socket_message message _ _ _) as [[[]|e] w1] eqn:E;
        apply router_queue in E; cbn in E.
      * intros [= <- <- <-].
        destruct E as [E|(item & Hitem & E)];
          [apply queue_grows_same; cbn; first [done | lia]|].
        exists [item]. cbn. split; [done|]. split; [by constructor|lia].
      * destruct e; intros [= <- <- <-];
          (destruct E as [E|(item & Hitem & E)];
           [apply queue_grows_same; cbn; first [done | lia]|];
           exists [item]; cbn; (split; [done|]); split; [by constructor|lia]).
    + intros [= <- <- <-]. apply queue_grows_same; cbn; first [done | lia].
    + intros [= <- <- <-]. apply queue_grows_same; cbn; first [done | lia].
  - intros [= <- <- <-]. apply queue_grows_same; cbn; first [done | lia].
Qed.

Lemma receive_queue host port :
  keeps queue_grows (receive_from_tcp_socket host port (Some _cot_message_handler)).
Proof.
  pose proof queue_grows_stepwise as HR.
  apply keeps_bind; [done | keeps_quiet | intros _].
  apply keeps_while_true; [done|].
  apply keeps_bind; [done | | intros; by apply keeps_ret].
  apply keeps_try_except; [done | |].
  - apply keeps_bind; [done | apply keeps_await_queue | intros _].
    apply keeps_bind; [done | keeps_quiet | intros _].
    apply keeps_try_finally; [done | |].
    + apply keeps_while_true; [done | apply read_line_queue].
    + apply keeps_bind; [done | keeps_quiet | intros _].
      apply keeps_bind; [done | apply keeps_await_queue | intros; by apply keeps_ret].
  - intros e h. destruct e; cbn; intros [= <-];
      (apply keeps_bind; [done | keeps_quiet | intros _];
       apply keeps_bind; [done | apply keeps_await_queue | intros; by apply keeps_ret]).
Qed.

(** X11. Whatever the daemon sends and however the run ends or is suspended,
    the bridge only appends to the output queue: payloads that are not
    empty, and no more of them than it has used responses. *)
Theorem bridge_queue_append_only cmd host port script w o script' w' :
  run_incomming_message_processing cmd host port script w = (o, script', w') →
  ∃ items, queue w' = queue w ++ items ∧
           Forall (λ item, item ≠ []) items ∧
           length items + length script' ≤ length script.
Proof.
  pose proof queue_grows_stepwise as HR.
  cut (keeps queue_grows (run_incomming_message_processing cmd host port)).
  { intros H E. by apply H in E. }
  apply keeps_bind; [done | | intros _].
  - apply keeps_bind; [done | apply keeps_await_queue | intros _].
    apply keeps_bind; [done | keeps_quiet | intros _]. keeps_quiet.
  - apply keeps_try_finally; [done | apply receive_queue |].
    apply keeps_bind; [done | | intros _].
    { apply keeps_bind; [done | apply keeps_await_queue | intros _]. keeps_quiet. }
    apply keeps_bind; [done | apply keeps_await_queue | intros _]. keeps_quiet.
Qed.

End Queue.

Ltac count_up :=
  unfold connections_kept, connections_balanced, opened, closed, mbind, M_bind in *;
  cbn in *; rewrite ?List.filter_app, ?length_app in *; cbn in *;
  try split; try lia.

Lemma connections_kept_stepwise : stepwise connections_kept.
Proof.
  split.
  - by intros b [s w].
  - intros b [s1 w1] [s2 w2] [s3 w3]. unfold connections_kept. cbn. lia.
Qed.

Lemma connections_balanced_stepwise : stepwise connections_balanced.
Proof.
  split.
  - intros [] [s w]; count_up.
  - intros [] [s1 w1] [s2 w2] [s3 w3]; count_up.
Qed.

Lemma kept_is_balanced {A} (t : task A) :
  keeps connections_kept t → keeps connections_balanced t.
Proof.
  intros Ht script w o script' w' E. apply Ht in E. destruct E as [E1 E2]. cbn in *.
  destruct o; unfold connections_balanced; cbn; lia.
Qed.

Section Connections.

Context `{RT : Runtime}.

Lemma cot_handler_connections v w r w' :
  _cot_message_handler v w = (r, w') → opened w' = opened w ∧ closed w' = closed w.
Proof.
  destruct v as [| | | |text| |]; try by intros [= <- <-].
  rewrite handler_run. destruct (from_string text w) as [[m|e] w1] eqn:E;
    apply from_string_world in E.
  - destruct (gen_cot m 0 120 50 9999999) as [[|x b]|]; intros [= <- <-];
      destruct E as [->| ->]; count_up.
  - intros [= <- <-]. destruct E as [->| ->]; count_up.
Qed.

Lemma router_connections message fp w r w' :
  handle_socket_message message (Some _cot_message_handler) fp w = (r, w') →
  opened w' = opened w ∧ closed w' = closed w.
Proof.
  destruct (router_cases message fp w)
    as [(r1 & w1 & Hr & Hw & _) | (d & p & en & data & text & a7 & s10 & _ & _ & _ & _ & _ & _ & _ & Hr)];
    rewrite Hr.
  - intros [= <- <-]. destruct Hw as [->|[m ->]]; count_up.
  - cbv zeta. intros E. apply cot_handler_connections in E. revert E. count_up.
Qed.

Lemma read_line_connections : keeps connections_kept (read_line (Some _cot_message_handler)).
Proof.
  intros script w o script' w'. unfold read_line, mbind at 1, task_bind at 1, await.
  cbn [act fst snd]. destruct script as [|[line|e] rest]; [| |].
  - intros [= <- <- <-]. count_up.
  - destruct line as [|x line].
    { intros [= <- <- <-]. count_up. }
    unfold mbind at 1, task_bind at 1, lift at 1, decode.
    destruct (utf8_decode (x :: line)) as [decoded|]; cbn [mret M_ret raise]; last first.
    { intros [= <- <- <-]. count_up. }
    destruct (str_strip decoded) as [|c s].
    { intros [= <- <- <-]. count_up. }
    unfold mbind, task_bind, lift, logger, try_except, loads, M_bind. cbn.
    destruct (json_loads (c :: s)) as [message| |]; cbn.
    + destruct (handle_socket_message message _ _ _) as [[[]|e] w1] eqn:E;
        apply router_connections in E.
      * intros [= <- <- <-]. revert E. count_up.
      * destruct e; intros [= <- <- <-]; revert E; count_up.
    + intros [= <- <- <-]. count_up.
    + intros [= <- <- <-]. count_up.
  - intros [= <- <- <-]. count_up.
Qed.

(** An open connection that is served is closed when the serving ends. *)
Lemma served_connection_balanced host port :
  keeps connections_balanced
    (lift (logger INFO (Connected host port));; serve_connection (Some _cot_message_handler)).
Proof.
  intros script w o script' w'.
  unfold serve_connection, mbind at 1, task_bind at 1, lift at 1, logger, task_try_finally.
  destruct (while_true _ script _) as [[[r|] s1] w1] eqn:E;
    apply (keeps_while_true _ _ connections_kept_stepwise read_line_connections) in E;
    destruct E as [E1 E2]; cbn in E1, E2.
  - unfold mbind, task_bind, lift, await. cbn.
    destruct s1 as [|[d|e] rest]; intros [= <- <- <-]; revert E1 E2; count_up.
  - intros [= <- <- <-]. revert E1 E2. count_up.
Qed.

Lemma keeps_await_connections a : a ≠ Writer_close → keeps connections_kept (await a).
Proof.
  intros Ha script w o script' w'. unfold await. cbn.
  destruct script as [|[d|e] rest]; intros [= <- <- <-]; destruct a; count_up; done.
Qed.

Lemma retry_later_connections m : keeps connections_kept (retry_later m).
Proof.
  pose proof connections_kept_stepwise as HR.
  apply keeps_bind; [done | | intros _].
  - apply keeps_lift. intros. destruct m; count_up.
  - apply keeps_bind; [done | by apply keeps_await_connections | intros; by apply keeps_ret].
Qed.

Lemma connect_once_connections host port :
  keeps connections_balanced (connect_once host port (Some _cot_message_handler)).
Proof.
  pose proof connections_balanced_stepwise as HR.
  apply keeps_bind; [done | | intros; by apply keeps_ret].
  apply keeps_try_except; [done | |].
  - apply keeps_bind; [done | | intros _; apply served_connection_balanced].
    by apply kept_is_balanced, keeps_await_connections.
  - intros e h. destruct e; cbn; intros [= <-];
      by apply kept_is_balanced, retry_later_connections.
Qed.

(** X12. Every connection the client has opened it has closed when it ends,
    however it ends; while it is suspended at most one is open. *)
Theorem connections_closed host port script w o script' w' :
  receive_from_tcp_socket host port (Some _cot_message_handler) script w = (o, script', w') →
  match o with
  | Some _ => opened w' + closed w = opened w + closed w'
  | None => opened w + closed w' ≤ opened w' + closed w ≤ opened w + closed w' + 1
  end.
Proof.
  pose proof connections_balanced_stepwise as HR.
  cut (keeps connections_balanced
         (receive_from_tcp_socket host port (Some _cot_message_handler))).
  { intros H E. apply H in E. by destruct o. }
  apply keeps_bind; [done | | intros _].
  - apply kept_is_balanced, keeps_lift. intros. count_up.
  - apply keeps_while_true; [done | apply connect_once_connections].
Qed.

End Connections.

(** ** Cancellation and failures of the environment *)

Section Cancel.

Context `{RT : Runtime}.

Implicit Types w : world.
Implicit Types handler : option (json → M unit).

Lemma connect_once_interrupted host port handler e d1 d2 rest w :
  is_Exception e = false →
  connect_once host port handler (Done d1 :: Fail e :: Done d2 :: rest) w
  = (Some (Raise e), rest, interrupted host port w).
Proof. by destruct e. Qed.

Lemma connect_once_close_failed host port handler e e' d1 d3 rest w :
  is_Exception e' = true →
  connect_once host port handler (Done d1 :: Fail e :: Fail e' :: Done d3 :: rest) w
  = (Some (Ok Continue), rest, dropped host port e' w).
Proof. by destruct e'. Qed.

(** X13. An exception that is no [Exception] (a cancellation, a keyboard
    interrupt) ends the client where it is delivered: at the connection
    attempt at once, at a read after the connection has been closed. At the
    delay of a retry every exception ends it, an [Exception] too. *)
Theorem cancellation_stops_client host port handler e :
  is_Exception e = false →
  (∀ rest w,
     receive_from_tcp_socket host port handler (Fail e :: rest) w
     = (Some (Raise e), rest,
        acted [Open_connection host port] (logged INFO (Connecting host port) w)))
  ∧ (∀ d1 d2 rest w,
       receive_from_tcp_socket host port handler (Done d1 :: Fail e :: Done d2 :: rest) w
       = (Some (Raise e), rest,
          interrupted host port (logged INFO (Connecting host port) w)))
  ∧ (∀ e0 e' rest w,
       is_Exception e0 = true →
       receive_from_tcp_socket host port handler (Fail e0 :: Fail e' :: rest) w
       = (Some (Raise e'), rest,
          acted [Sleep 5]
            (logged ERROR (error_record e0)
               (acted [Open_connection host port]
                  (logged INFO (Connecting host port) w))))).
Proof.
  intros He. split; [|split].
  - intros rest w. rewrite receive_start.
    rewrite while_true_unfold by apply connect_once_advances. by destruct e.
  - intros d1 d2 rest w. rewrite receive_start.
    rewrite while_true_unfold by apply connect_once_advances.
    unfold iterate. by rewrite connect_once_interrupted.
  - intros e0 e' rest w He0. rewrite receive_start.
    rewrite while_true_unfold by apply connect_once_advances. by destruct e0.
Qed.

(** X14. An [Exception] raised while the connection is being closed replaces
    the exception that ended the reading, a cancellation too: the client
    logs the close error, waits and connects again. *)
Theorem close_error_masks_cancellation host port handler e e' d1 d3 rest w :
  is_Exception e' = true →
  receive_from_tcp_socket host port handler
    (Done d1 :: Fail e :: Fail e' :: Done d3 :: rest) w
  = while_true (connect_once host port handler) rest
      (dropped host port e' (logged INFO (Connecting host port) w)).
Proof.
  intros He'. rewrite receive_start.
  rewrite while_true_unfold by apply connect_once_advances.
  unfold iterate. by rewrite connect_once_close_failed.
Qed.

(** X15. When the daemon cannot be started the error leaves the scope as it
    is: the body is not run, so the bridge makes no connection attempt, and
    nothing is terminated or awaited. *)
Theorem spawn_failure_skips_scope :
  (∀ A cmd (body : task A) e script w,
     cleaning_up_proc cmd body (Fail e :: script) w
     = (Some (Raise e), script, acted [Create_subprocess_shell cmd] w))
  ∧ (∀ cmd host port e script w,
       run_incomming_message_processing cmd host port (Fail e :: script) w
       = (Some (Raise e), script, acted [Create_subprocess_shell cmd] w))
  ∧ (∀ A cmd (body : task A) w,
       cleaning_up_proc cmd body [] w = (None, [], acted [Create_subprocess_shell cmd] w)).
Proof. done. Qed.

End Cancel.

(** ** Lines that carry no document for the router *)

Section Lines.

Context `{RT : Runtime}.

Implicit Types w : world.
Implicit Types handler : option (json → M unit).

Lemma strip_all_space ws : all_space ws → str_strip ws = [].
Proof. intros H. unfold str_strip. by rewrite lstrip_all_space. Qed.

(** X16. A line of whitespace only is skipped before anything is logged or
    parsed: the handler is not called and the loop goes on to the next
    line. *)
Theorem blank_line_skipped handler (line : list byte) (text : list N) rest w :
  line ≠ [] → utf8_decode line = Some text → all_space text →
  read_line handler (Done line :: rest) w = (Some (Ok Continue), rest, acted [Readline] w)
  ∧ while_true (read_line handler) (Done line :: rest) w
    = while_true (read_line handler) rest (acted [Readline] w).
Proof.
  intros Hline Hdec Hblank.
  assert (E : read_line handler (Done line :: rest) w
              = (Some (Ok Continue), rest, acted [Readline] w)).
  { unfold read_line, decode. run_task. destruct line as [|x line]; [done|].
    rewrite Hdec. cbn. by rewrite (strip_all_space _ Hblank). }
  split; [done|].
  rewrite while_true_unfold by apply read_line_advances. unfold iterate. by rewrite E.
Qed.

(** X17. A line that holds JSON which is no object (a number, a string, a
    list, null) is no parse failure: the router's AttributeError ends the
    connection, which is closed, logged at error level and retried after the
    delay; the handler is not called. *)
Theorem non_object_line_drops_connection host port handler (line : list byte)
    (text : list N) (message : json) d1 d2 d3 rest w :
  line ≠ [] → utf8_decode line = Some text → str_strip text ≠ [] →
  json_loads (str_strip text) = Loaded message → (∀ d, message ≠ JDict d) →
  while_true (connect_once host port handler)
    (Done d1 :: Done line :: Done d2 :: Done d3 :: rest) w
  = while_true (connect_once host port handler) rest
      (dropped_on_line host port (str_strip text) AttributeError w).
Proof.
  intros Hline Hdec Hblank Hjson Hobj.
  rewrite while_true_unfold by apply connect_once_advances. unfold iterate.
  assert (connect_once host port handler
            (Done d1 :: Done line :: Done d2 :: Done d3 :: rest) w
          = (Some (Ok Continue), rest,
             dropped_on_line host port (str_strip text) AttributeError w)) as ->; [|done].
  unfold connect_once, serve_connection, while_true, read_line, decode, loads.
  run_task. destruct line as [|x line]; [done|]. rewrite Hdec. cbn.
  destruct (str_strip text) as [|c s] eqn:E; [done|]. cbn.
  unfold try_except. cbn. rewrite Hjson. cbn.
  unfold handle_socket_message, dict_get. run_M.
  destruct message as [| | | | | |d]; try done. by destruct (Hobj d).
Qed.

End Lines.

(** ** The theorems at concrete inputs *)

Module Witness.

Import Example.
#[local] Existing Instance runtime.

(** Facts about closed terms, by evaluation, one goal after the other (an
    earlier goal fixes what a later one is about). *)
Ltac text_facts :=
  first
    [ vm_compute;
      first [ reflexivity | discriminate
            | solve [repeat first [ apply List.Forall_nil
                                  | apply List.Forall_cons; [reflexivity|]
                                  | apply List.Forall2_nil
                                  | apply List.Forall2_cons; [reflexivity|] ]] ] ].

Lemma numbered_uuid_inj i j : numbered_uuid i = numbered_uuid j → i = j.
Proof.
  unfold numbered_uuid. intros H%(inj (app _)). injection H as H.
  by apply N.add_cancel_l, Nat2N.inj in H.
Defined.

Lemma from_string_valid_input_witness :
  (∃ m, @from_string runtime (py "48.5 39.75 tank") world0 = (Ok m, drawn world0) ∧
        lat m = 48.5%float ∧ lon m = 39.75%float ∧ description m = py "tank" ∧
        event_id m ≠ [])
  ∧ (∃ m1 w1 m2 w2,
       @from_string runtime (py "48.5 39.75 tank") world0 = (Ok m1, w1) ∧
       @from_string runtime (py "48.5 39.75 tank") w1 = (Ok m2, w2) ∧
       event_id m1 ≠ event_id m2)
  ∧ (∃ why, @from_string runtime (py "48.5 39.75") world0 = (Raise (ValueError why), world0))
  ∧ (∃ why, @from_string runtime (py "north 39.75 tank") world0
            = (Raise (ValueError why), world0)).
Proof.
  destruct (@from_string_valid_input runtime) as (Hok & Hfresh & Hform & Hnum).
  split; [|split; [|split]].
  - apply (Hok [] (py "48.5") (py " ") (py "39.75") (py " ") (py "tank") []
             48.5%float 39.75%float world0); text_facts.
  - eexists _, _, _, _. split; [text_facts|]. split; [text_facts|].
    eapply (Hfresh (py "48.5 39.75 tank") world0 _ _ (drawn world0) _ _
              numbered_uuid_inj); [text_facts | cbn; lia | text_facts].
  - apply Hform. text_facts.
  - apply (Hnum _ (py "north") (py "39.75") (py "tank")); [text_facts | left; text_facts].
Defined.

Lemma out_of_range_rejected_witness :
  ∃ why,
    @new_CoordinateMessage runtime 91%float 0%float (py "tank") world0
    = (Raise (ValueError why), drawn world0) ∧
    @from_string runtime (py "91 0 tank") world0 = (Raise (ValueError why), drawn world0) ∧
    ∃ w', @_cot_message_handler runtime (JStr (py "91 0 tank")) world0 = (Ok tt, w') ∧
          queue w' = queue world0.
Proof.
  apply (@out_of_range_rejected runtime (py "91 0 tank") (py "91") (py "0") (py "tank"));
    [text_facts | text_facts | text_facts | left; text_facts].
Defined.

Lemma cot_type_composition_witness :
  @category_code runtime (py "Tank") = @category_code runtime (py "TANK")
  ∧ ∃ m w', @from_string runtime (py "48.5 39.75 Tank") world0 = (Ok m, w') ∧
            @cot_type runtime m = py "a-u-" ++ @category_code runtime (description m).
Proof.
  destruct (@cot_type_composition runtime) as (_ & _ & Hcase & _ & _ & _ & Hprefix).
  split.
  - apply Hcase; text_facts.
  - eexists _, _. split; [text_facts|].
    apply (Hprefix (py "48.5 39.75 Tank") world0 _ (drawn world0)). text_facts.
Defined.

Lemma from_string_label_nonempty_witness :
  match (@from_string runtime (py "48.5 39.75 tank") world0).1 with
  | Ok m => description m ≠ []
  | Raise e => e ≠ ValueError Label_cannot_be_empty
  end.
Proof.
  exact (@from_string_label_nonempty runtime (py "48.5 39.75 tank") world0 _ _
           (surjective_pairing _)).
Defined.

Lemma from_string_strip_invariant_witness :
  match @from_string runtime (py "48.5 39.75 tank") world0,
        @from_string runtime (py "  " ++ py "48.5 39.75 tank" ++ py " ") world0 with
  | (Ok m, _), (Ok m', _) =>
      lat m' = lat m ∧ lon m' = lon m ∧ description m' = description m
  | (Raise e, _), (Raise e', _) => is_ValueError e = true ∧ is_ValueError e' = true
  | _, _ => False
  end.
Proof.
  apply (@from_string_strip_invariant runtime (py "  ") (py "48.5 39.75 tank") (py " ") world0);
    text_facts.
Defined.

Lemma receive_retries_forever_witness :
  @receive_from_tcp_socket runtime host port (Some _cot_message_handler)
    [Fail ConnectionRefusedError; Done []; Fail OSError; Done []] world0
  = (None, [],
     acted [Open_connection host port]
       (retried host port OSError
          (retried host port ConnectionRefusedError
             (logged INFO (Connecting host port) world0)))).
Proof.
  destruct (@receive_retries_forever runtime host port (Some _cot_message_handler))
    as (_ & Hretry & _ & _).
  rewrite Hretry by reflexivity.
  rewrite connect_failed by reflexivity.
  reflexivity.
Defined.

(** A line of 2000 opening brackets: a document that nests too deep. *)
Definition deep_line : bytes := replicate 2000 x5b.
Definition deep_text : str := replicate 2000 0x5B%N.

Lemma non_json_line_skipped_witness :
  (let w' := logged DEBUG (Non_JSON (py "not json"))
               (logged DEBUG (Raw (py "not json")) (acted [Readline] world0)) in
   @read_line runtime (Some _cot_message_handler) [Done (lit "not json ")] world0
   = (Some (Ok Continue), [], w')
   ∧ while_true (@read_line runtime (Some _cot_message_handler)) [Done (lit "not json ")] world0
     = while_true (@read_line runtime (Some _cot_message_handler)) [] w'
   ∧ queue w' = queue world0)
  ∧ @read_line runtime (Some _cot_message_handler) [Done [xff]] world0
    = (Some (Raise UnicodeDecodeError), [], acted [Readline] world0)
  ∧ @read_line runtime (Some _cot_message_handler) [Done deep_line] world0
    = (Some (Raise RecursionError), [],
       logged DEBUG (Raw deep_text) (acted [Readline] world0)).
Proof.
  destruct (@non_json_line_skipped runtime (Some _cot_message_handler))
    as (Hskip & Hdecode & Hdeep).
  split; [|split].
  - apply (Hskip (lit "not json ") (py "not json ") [] world0); text_facts.
  - apply (Hdecode host port [xff] [] [] [] [] world0); text_facts.
  - apply (Hdeep host port deep_line deep_text [] [] [] [] world0); text_facts.
Defined.

(** Two received lines that are not valid JSON and are not skipped: the
    client does not go on to the next line, it logs at error level, closes
    the connection and waits before it connects again. *)
Lemma non_json_line_skipped_counterexample :
  (@read_line runtime (Some _cot_message_handler) [Done [xff]] world0
   = (Some (Raise UnicodeDecodeError), [], acted [Readline] world0)
   ∧ @receive_from_tcp_socket runtime host port (Some _cot_message_handler)
       [Done []; Done [xff]; Done []; Done []] world0
     = (None, [],
        acted [Open_connection host port]
          (dropped host port UnicodeDecodeError
             (logged INFO (Connecting host port) world0))))
  ∧ (@read_line runtime (Some _cot_message_handler) [Done deep_line] world0
     = (Some (Raise RecursionError), [],
        logged DEBUG (Raw deep_text) (acted [Readline] world0))
     ∧ @receive_from_tcp_socket runtime host port (Some _cot_message_handler)
         [Done []; Done deep_line; Done []; Done []] world0
       = (None, [],
          acted [Open_connection host port]
            (dropped_on_line host port deep_text RecursionError
               (logged INFO (Connecting host port) world0)))).
Proof. split; split; vm_compute; reflexivity. Qed.

Lemma daemon_terminated_on_exit_witness :
  @run_incomming_message_processing runtime (py "signal-cli -u +100 daemon --tcp") host port
    [Done []; Fail ConnectionRefusedError; Fail CancelledError; Done []; Done []] world0
  = after_cleanup (Raise CancelledError) [Done []; Done []]
      (acted [Sleep 5]
         (logged ERROR Connection_refused
            (acted [Open_connection host port]
               (logged INFO (Connecting host port)
                  (started (py "signal-cli -u +100 daemon --tcp") world0))))).
Proof.
  destruct (@daemon_terminated_on_exit runtime) as (Hscope & _ & _ & _).
  apply (Hscope _ (py "signal-cli -u +100 daemon --tcp")
           (@receive_from_tcp_socket runtime host port (Some _cot_message_handler))).
  text_facts.
Defined.

(** Two runs of the bridge that is cancelled during the delay of a retry.
    In the first the daemon has exited already: terminate() raises, wait()
    is not awaited, and the run call ends with the ProcessLookupError
    instead of the cancellation. In the second the wait for the daemon is
    interrupted: the run call returns with the daemon signalled and its exit
    not observed. *)
Lemma daemon_terminated_on_exit_counterexample :
  (∃ w', @run_incomming_message_processing runtime (py "signal-cli -u +100 daemon --tcp")
           host port
           [Done []; Fail ConnectionRefusedError; Fail CancelledError;
            Fail ProcessLookupError] world0
         = (Some (Raise ProcessLookupError), [], w') ∧
         trace w' = [Create_subprocess_shell (py "signal-cli -u +100 daemon --tcp");
                     Open_connection host port; Sleep 5; Terminate])
  ∧ (∃ w', @run_incomming_message_processing runtime (py "signal-cli -u +100 daemon --tcp")
             host port
             [Done []; Fail ConnectionRefusedError; Fail CancelledError;
              Done []; Fail CancelledError] world0
           = (Some (Raise CancelledError), [], w') ∧
           trace w' = [Create_subprocess_shell (py "signal-cli -u +100 daemon --tcp");
                       Open_connection host port; Sleep 5; Terminate; Wait] ∧
           daemon w' = Terminating).
Proof. split; eexists; repeat (split; [vm_compute; reflexivity|]); vm_compute; reflexivity. Qed.

Definition receive_envelope : gmap (list N) json :=
  {[ py "method" := JStr (py "receive");
     py "params" := JDict {[ py "account" := JStr (py "+10000000000");
                             py "envelope" := JDict
        {[ py "sourceNumber" := JStr (py "+20000000000");
           py "dataMessage" := JDict {[ py "message" := JStr (py "1 2 tank") ]} ]} ]} ]}.

Lemma text_envelope_routed_witness :
  let w' := logged INFO (Message_from (JStr (py "+100000")) (JStr (py "+200000000"))
                           (JStr (py "1 2 tank"))) world0 in
  handle_socket_message (JDict receive_envelope) (Some _cot_message_handler)
    (py "dataMessage") world0
  = _cot_message_handler (JStr (py "1 2 tank")) w'
  ∧ handle_socket_message (JDict receive_envelope) None (py "dataMessage") world0
    = (Ok tt, w').
Proof.
  eapply (text_envelope_routed receive_envelope _ _ _
            (py "+10000000000") (py "+20000000000")).
  all: text_facts.
Defined.

Lemma chat_line_enqueues_marker_witness :
  ∃ w', read_line (Some _cot_message_handler) [Done scenario_line] world0
        = (Some (Ok Continue), [], w') ∧
        queue w' = queue world0
                     ++ [lit "Signal-Bot-00000000-0000-4000-8000-0 a-u-G-U-C-F-M"].
Proof.
  eapply (chat_line_enqueues_marker scenario_line _ _ _ _ _ _ _ _ _ _ _
            48.5%float 0x1.3e66666666666p+5%float).
  all: text_facts.
Defined.

Lemma undecodable_line_drops_connection_witness :
  while_true (connect_once host port (Some _cot_message_handler))
    [Done []; Done [xff]; Done []; Done []] world0
  = while_true (connect_once host port (Some _cot_message_handler)) []
      (dropped host port UnicodeDecodeError world0)
  ∧ queue (dropped host port UnicodeDecodeError world0) = queue world0.
Proof.
  apply (undecodable_line_drops_connection host port (Some _cot_message_handler) [xff]);
    text_facts.
Defined.

Lemma handler_raises_on_other_values_witness :
  _cot_message_handler (JInt 5) world0 = (Raise AttributeError, world0).
Proof. apply handler_raises_on_other_values. discriminate. Defined.

Lemma from_string_coordinates_finite_witness :
  ∃ m w', @from_string runtime (py "48.5 39.75 tank") world0 = (Ok m, w') ∧
          PrimFloat.is_nan (lat m) = false ∧ PrimFloat.is_infinity (lat m) = false ∧
          PrimFloat.is_nan (lon m) = false ∧ PrimFloat.is_infinity (lon m) = false.
Proof.
  eexists _, _. split; [text_facts|].
  apply (@from_string_coordinates_finite runtime (py "48.5 39.75 tank") world0 _
           (drawn world0)).
  text_facts.
Defined.

(** The daemon accepts a connection and sends a chat line; the task is
    cancelled at the next read and the connection is closed. *)
Definition cancelled_session : list resp :=
  [Done []; Done scenario_line; Fail CancelledError; Done []].

Lemma client_stops_only_on_delivered_exception_witness :
  ∃ w', receive_from_tcp_socket host port (Some _cot_message_handler)
          (cancelled_session ++ [Done []]) world0
        = (Some (Raise CancelledError), [Done []], w') ∧
        ∃ used, cancelled_session ++ [Done []] = used ++ [Done []] ∧
                Fail CancelledError ∈ used.
Proof.
  eexists. split; [text_facts|].
  eapply proj1.
  eapply (client_stops_only_on_delivered_exception host port (Some _cot_message_handler)
            (cancelled_session ++ [Done []]) world0 (Some (Raise CancelledError))).
  - exact cot_handler_raises_exceptions.
  - text_facts.
Defined.

Lemma bridge_stops_only_on_delivered_exception_witness :
  ∃ w', run_incomming_message_processing (py "signal-cli -u +100 daemon --tcp") host port
          (Done [] :: cancelled_session ++ [Fail ProcessLookupError; Done []]) world0
        = (Some (Raise ProcessLookupError), [Done []], w') ∧
        ∃ used, Done [] :: cancelled_session ++ [Fail ProcessLookupError; Done []]
                = used ++ [Done []] ∧
                Fail ProcessLookupError ∈ used.
Proof.
  eexists. split; [text_facts|].
  eapply proj1.
  eapply (bridge_stops_only_on_delivered_exception (py "signal-cli -u +100 daemon --tcp")
            host port (Done [] :: cancelled_session ++ [Fail ProcessLookupError; Done []])
            world0 (Some (Raise ProcessLookupError))).
  text_facts.
Defined.

Lemma bridge_queue_append_only_witness :
  ∃ w', run_incomming_message_processing (py "signal-cli -u +100 daemon --tcp") host port
          (Done [] :: cancelled_session ++ [Done []; Done []]) world0
        = (Some (Raise CancelledError), [], w') ∧
        ∃ items, queue w' = queue world0 ++ items ∧
                 Forall (λ item, item ≠ []) items ∧
                 length items + length (@nil resp)
                 ≤ length (Done [] :: cancelled_session ++ [Done []; Done []]).
Proof.
  eexists. split; [text_facts|].
  eapply (bridge_queue_append_only (py "signal-cli -u +100 daemon --tcp") host port
            (Done [] :: cancelled_session ++ [Done []; Done []]) world0
            (Some (Raise CancelledError)) []).
  text_facts.
Defined.

Lemma connections_closed_witness :
  ∃ w', receive_from_tcp_socket host port (Some _cot_message_handler)
          cancelled_session world0
        = (Some (Raise CancelledError), [], w') ∧
        opened w' + closed world0 = opened world0 + closed w'.
Proof.
  eexists. split; [text_facts|].
  apply (connections_closed host port cancelled_session world0
           (Some (Raise CancelledError)) []).
  text_facts.
Defined.

Lemma cancellation_stops_client_witness :
  receive_from_tcp_socket host port (Some _cot_message_handler)
    [Done []; Fail CancelledError; Done []] world0
  = (Some (Raise CancelledError), [],
     interrupted host port (logged INFO (Connecting host port) world0)).
Proof.
  destruct (cancellation_stops_client host port (Some _cot_message_handler) CancelledError)
    as (_ & Hread & _); [reflexivity|].
  apply Hread.
Defined.

Lemma close_error_masks_cancellation_witness :
  receive_from_tcp_socket host port (Some _cot_message_handler)
    [Done []; Fail CancelledError; Fail ConnectionResetError; Done []] world0
  = while_true (connect_once host port (Some _cot_message_handler)) []
      (dropped host port ConnectionResetError (logged INFO (Connecting host port) world0)).
Proof.
  apply (close_error_masks_cancellation host port (Some _cot_message_handler)
           CancelledError ConnectionResetError).
  reflexivity.
Defined.

Lemma blank_line_skipped_witness :
  @read_line runtime (Some _cot_message_handler) [Done (lit "   ")] world0
  = (Some (Ok Continue), [], acted [Readline] world0)
  ∧ while_true (@read_line runtime (Some _cot_message_handler)) [Done (lit "   ")] world0
    = while_true (@read_line runtime (Some _cot_message_handler)) [] (acted [Readline] world0).
Proof.
  apply (@blank_line_skipped runtime (Some _cot_message_handler) (lit "   ") (py "   ")
           [] world0); text_facts.
Defined.

Lemma non_object_line_drops_connection_witness :
  while_true (connect_once host port (Some _cot_message_handler))
    [Done []; Done (lit "[1, 2]"); Done []; Done []] world0
  = while_true (connect_once host port (Some _cot_message_handler)) []
      (dropped_on_line host port (py "[1, 2]") AttributeError world0).
Proof.
  apply (non_object_line_drops_connection host port (Some _cot_message_handler)
           (lit "[1, 2]") (py "[1, 2]") (JList [JInt 1; JInt 2]));
    first [text_facts | discriminate].
Defined.

End Witness.
